(** * Block detection of the run-code-block extension (src/out/extension.js)

    A shallow embedding of [detectMarkdownLang], [normalizeLangId],
    [findCodeBlocks], [findMarkdownBlocks] and [findSourceBlocks], and the
    properties of the block lists they produce.

    Conventions of the embedding.
    - A line's text is a [string] of bytes (the UTF-8 encoding of the
      editor's text).  The regular-expression class [\w] is
      [A-Za-z0-9_]; no byte above 127 belongs to it, so matching on
      bytes agrees with matching on UTF-16 code units.
    - The object literals [RUNNERS] and [aliases] are read with
      [obj[key]], which finds the literal's own properties and the
      properties every object inherits from [Object.prototype].  Their
      own properties are finite maps; the inherited names are
      [objectPrototypeNames], and a value found through the prototype
      chain is kept apart from a string ([LangValue]).
    - Line numbers stored in blocks are integers ([Z]), because
      [lineCount - 1] is computed without a guard; loop cursors are
      naturals.
    - [blocks.push(b)] inside a loop is rendered by consing [b] in front
      of what the rest of the loop produces. *)

From Stdlib Require Import ZArith Ascii String DecimalString.
From stdpp Require Import base list gmap strings.

Local Open Scope string_scope.
Local Open Scope nat_scope.
Local Open Scope list_scope.

(** ** The host document *)

(** [vscode.TextLine]: the code reads [text] and [isEmptyOrWhitespace]. *)
Record TextLine := mkTextLine {
  text : string;
  isEmptyOrWhitespace : bool
}.

(** [vscode.TextDocument]: [languageId], [lineCount] and [lineAt]. *)
Record TextDocument := mkTextDocument {
  languageId : string;
  lines : list TextLine
}.

Definition lineCount (document : TextDocument) : nat :=
  length (lines document).

Definition lineAt (document : TextDocument) (i : nat) : option TextLine :=
  lines document !! i.

(** ** Runner table *)

Record RunnerConfig := mkRunner {
  command : string;
  ext : string
}.

(** The argument ["{file}"] of every command template, with its quotes. *)
Definition fileArg : string :=
  let q := String (ascii_of_nat 34) EmptyString in q +:+ "{file}" +:+ q.

Definition RUNNERS : gmap string RunnerConfig :=
  list_to_map
    [ ("javascript", mkRunner ("node " +:+ fileArg) ".js");
      ("typescript", mkRunner ("npx ts-node " +:+ fileArg) ".ts");
      ("python", mkRunner ("python3 " +:+ fileArg) ".py");
      ("shellscript", mkRunner ("bash " +:+ fileArg) ".sh");
      ("ruby", mkRunner ("ruby " +:+ fileArg) ".rb");
      ("go", mkRunner ("go run " +:+ fileArg) ".go");
      ("rust",
       mkRunner ("rustc " +:+ fileArg +:+ " -o " +:+ fileArg +:+ ".out && "
                 +:+ fileArg +:+ ".out") ".rs");
      ("java", mkRunner ("java " +:+ fileArg) ".java");
      ("c",
       mkRunner ("gcc " +:+ fileArg +:+ " -o " +:+ fileArg +:+ ".out && "
                 +:+ fileArg +:+ ".out") ".c");
      ("cpp",
       mkRunner ("g++ " +:+ fileArg +:+ " -o " +:+ fileArg +:+ ".out && "
                 +:+ fileArg +:+ ".out") ".cpp");
      ("php", mkRunner ("php " +:+ fileArg) ".php");
      ("perl", mkRunner ("perl " +:+ fileArg) ".pl");
      ("lua", mkRunner ("lua " +:+ fileArg) ".lua");
      ("r", mkRunner ("Rscript " +:+ fileArg) ".R") ].

(** ** Property lookup on the object literals *)

(** The names of the properties an object literal inherits from
    [Object.prototype]: [obj[name]] is then a function, or
    [Object.prototype] itself for [__proto__], unless the literal has a
    property of its own with that name. *)
Definition objectPrototypeNames : list string :=
  [ "constructor"; "__defineGetter__"; "__defineSetter__"; "hasOwnProperty";
    "__lookupGetter__"; "__lookupSetter__"; "isPrototypeOf";
    "propertyIsEnumerable"; "toString"; "valueOf"; "__proto__";
    "toLocaleString" ].

(** The values [languageId] takes in the detectors: a string, or the
    member [name] of [Object.prototype] that [aliases[name]] found
    through the prototype chain. *)
Inductive LangValue :=
| LangString (s : string)
| LangInherited (name : string).

Coercion LangString : string >-> LangValue.

(** The truthiness test [RUNNERS[languageId]] of both detectors.  A
    string finds the runner of that name or, through the prototype
    chain, an inherited member; both are truthy.  A value that is not a
    string is first converted to a property key, the source text of a
    native function or [[object Object]], which names no property of
    [RUNNERS], so the lookup is [undefined]. *)
Definition hasRunner (languageId : LangValue) : bool :=
  match languageId with
  | LangString key =>
      bool_decide (is_Some (RUNNERS !! key))
      || bool_decide (key ∈ objectPrototypeNames)
  | LangInherited _ => false
  end.

(** ** Characters and strings *)

(** The class [\w] of the regular expressions. *)
Definition isWordChar (c : ascii) : bool :=
  let n := nat_of_ascii c in
  (((48 <=? n) && (n <=? 57)) || ((65 <=? n) && (n <=? 90))
   || ((97 <=? n) && (n <=? 122)) || (n =? 95))%nat.

Definition isUpper (c : ascii) : bool :=
  let n := nat_of_ascii c in ((65 <=? n) && (n <=? 90))%nat.

Definition lowerChar (c : ascii) : ascii :=
  if isUpper c then ascii_of_nat (nat_of_ascii c + 32) else c.

(** [String.prototype.toLowerCase], on the strings the code applies it
    to (runs of [\w] characters). *)
Fixpoint toLowerCase (s : string) : string :=
  match s with
  | EmptyString => EmptyString
  | String c r => String (lowerChar c) (toLowerCase r)
  end.

(** The longest prefix of [s] made of [\w] characters: what [\w+]
    consumes. *)
Fixpoint wordRun (s : string) : string :=
  match s with
  | EmptyString => EmptyString
  | String c r => if isWordChar c then String c (wordRun r) else EmptyString
  end.

Definition fence : string := "```".

(** [s.startsWith('```')]. *)
Definition startsWithFence (s : string) : bool := String.prefix fence s.

(** What follows the three backticks a line begins with. *)
Definition afterFence (s : string) : option string :=
  match s with
  | String "`" (String "`" (String "`" r)) => Some r
  | _ => None
  end.

(** The capture group of [/^```(\w+)/] on [line], when the expression
    matches. *)
Definition matchFence (line : string) : option string :=
  match afterFence line with
  | Some r =>
      match wordRun r with
      | EmptyString => None
      | run => Some run
      end
  | None => None
  end.

(** [/^```\w+/.test(lineText)]. *)
Definition testFence (lineText : string) : bool :=
  bool_decide (is_Some (matchFence lineText)).

(** [lines.join('\n')]. *)
Definition newline : string := String (ascii_of_nat 10) EmptyString.

Definition join (ls : list string) : string := String.concat newline ls.

(** ** Helpers of the extension *)

Definition detectMarkdownLang (line : string) : option string :=
  match matchFence line with
  | Some m => Some (toLowerCase m)
  | None => None
  end.

Definition aliases : gmap string string :=
  list_to_map
    [ ("js", "javascript");
      ("ts", "typescript");
      ("py", "python");
      ("sh", "shellscript");
      ("bash", "shellscript");
      ("zsh", "shellscript");
      ("rb", "ruby");
      ("rs", "rust");
      ("c++", "cpp");
      ("cxx", "cpp") ].

(** [aliases[lang] ?? lang]: the alias of that name, else the member of
    [Object.prototype] of that name (which is not nullish), else
    [lang]. *)
Definition normalizeLangId (lang : string) : LangValue :=
  match aliases !! lang with
  | Some canonical => LangString canonical
  | None =>
      if bool_decide (lang ∈ objectPrototypeNames) then LangInherited lang
      else LangString lang
  end.

(** ** Blocks *)

Record CodeBlock := mkCodeBlock {
  startLine : Z;
  endLine : Z;
  blockLanguageId : LangValue;
  code : string;
  lensLine : Z
}.

(** The texts pushed by [for (let l = startLine; l <= endLine; l++)]. *)
Definition textsBetween (document : TextDocument) (startLine endLine : Z)
  : list string :=
  text <$> take (Z.to_nat (endLine - startLine + 1))
                (drop (Z.to_nat startLine) (lines document)).

(** ** Markdown documents *)

(** The inner loop
    [while (i < lineCount && !lineAt(i).text.startsWith(fence)) i++],
    run on the lines from cursor [i] on; it returns the final cursor. *)
Fixpoint findClosing (rest : list TextLine) (i : nat) : nat :=
  match rest with
  | [] => i
  | ln :: rest' =>
      if startsWithFence (text ln) then i else findClosing rest' (S i)
  end.

(** The outer loop [while (i < document.lineCount)] entered with cursor
    [i]; every iteration advances the cursor, so [fuel] bounds the number
    of iterations. *)
Fixpoint markdownLoop (document : TextDocument) (fuel i : nat)
  : list CodeBlock :=
  match fuel with
  | O => []
  | S fuel' =>
      match lineAt document i with
      | None => []
      | Some ln =>
          let lineText := text ln in
          if testFence lineText then
            let rawLang := default "shellscript" (detectMarkdownLang lineText) in
            let languageId := normalizeLangId rawLang in
            let lensLine := Z.of_nat i in
            let startLine := (Z.of_nat i + 1)%Z in
            let i1 := findClosing (drop (S i) (lines document)) (S i) in
            let endLine := (Z.of_nat i1 - 1)%Z in
            let pushed :=
              if (startLine <=? endLine)%Z && hasRunner languageId then
                [ mkCodeBlock startLine endLine languageId
                    (join (textsBetween document startLine endLine)) lensLine ]
              else [] in
            pushed ++ markdownLoop document fuel' (S i1)
          else markdownLoop document fuel' (S i)
      end
  end.

Definition findMarkdownBlocks (document : TextDocument) : list CodeBlock :=
  markdownLoop document (lineCount document) 0.

(** ** Source documents *)

(** An element [{ start, end }] of [sections]. *)
Record SectionRange := mkSection {
  start : Z;
  end_ : Z
}.

(** The look-ahead
    [while (j < lineCount && lineAt(j).isEmptyOrWhitespace) { blankCount++; j++ }]
    run on the lines from cursor [j] on; it returns the final [j]
    ([blankCount] is the distance the cursor moved). *)
Fixpoint skipBlank (rest : list TextLine) (j : nat) : nat :=
  match rest with
  | [] => j
  | ln :: rest' =>
      if isEmptyOrWhitespace ln then skipBlank rest' (S j) else j
  end.

(** The [for] loop over the lines with its state [sectionStart], entered
    with cursor [i], followed by the push of the section still open when
    the loop ends. *)
Fixpoint sectionLoop (document : TextDocument) (fuel i : nat)
  (sectionStart : option nat) : list SectionRange :=
  let atEnd :=
    match sectionStart with
    | Some s => [ mkSection (Z.of_nat s) (Z.of_nat (lineCount document) - 1) ]
    | None => []
    end in
  match fuel with
  | O => atEnd
  | S fuel' =>
      match lineAt document i with
      | None => atEnd
      | Some ln =>
          let isEmpty := isEmptyOrWhitespace ln in
          if negb isEmpty then
            match sectionStart with
            | None => sectionLoop document fuel' (S i) (Some i)
            | Some _ => sectionLoop document fuel' (S i) sectionStart
            end
          else
            match sectionStart with
            | Some s =>
                let j := skipBlank (drop i (lines document)) i in
                let blankCount := j - i in
                if (2 <=? blankCount)%nat then
                  mkSection (Z.of_nat s) (Z.of_nat i - 1)
                  :: sectionLoop document fuel' j None
                else sectionLoop document fuel' (S i) sectionStart
            | None => sectionLoop document fuel' (S i) sectionStart
            end
      end
  end.

Definition findSections (document : TextDocument) : list SectionRange :=
  sectionLoop document (lineCount document) 0 None.

Definition wholeFileBlock (document : TextDocument) : CodeBlock :=
  mkCodeBlock 0 (Z.of_nat (lineCount document) - 1) (languageId document)
    (join (text <$> lines document)) 0.

Definition sectionBlock (document : TextDocument) (sec : SectionRange) : CodeBlock :=
  mkCodeBlock (start sec) (end_ sec) (languageId document)
    (join (textsBetween document (start sec) (end_ sec)))
    (start sec).

Definition findSourceBlocks (document : TextDocument) : list CodeBlock :=
  let languageId := languageId document in
  if negb (hasRunner languageId) then []
  else
    let sections := findSections document in
    wholeFileBlock document
    :: (if (1 <? length sections)%nat then sectionBlock document <$> sections
        else []).

Definition findCodeBlocks (document : TextDocument) : list CodeBlock :=
  if bool_decide (languageId document = "markdown")
  then findMarkdownBlocks document
  else findSourceBlocks document.

(** ** Building documents for the examples *)

(** Sample lines are ASCII; their [isEmptyOrWhitespace] is computed from
    the text as the editor does (space, tab and the other ASCII white
    space). *)

Definition isSpace (c : ascii) : bool :=
  let n := nat_of_ascii c in ((n =? 32) || ((9 <=? n) && (n <=? 13)))%nat.

Fixpoint allSpace (s : string) : bool :=
  match s with
  | EmptyString => true
  | String c r => isSpace c && allSpace r
  end.

Definition lineOf (s : string) : TextLine := mkTextLine s (allSpace s).

Definition docOf (lang : string) (ls : list string) : TextDocument :=
  mkTextDocument lang (lineOf <$> ls).

(** ** Auxiliary notions for the markdown scan *)

(** The cursor at which the inner loop stops for the fence opened on
    line [i]. *)
Definition closingOf (document : TextDocument) (i : nat) : nat :=
  findClosing (drop (S i) (lines document)) (S i).

(** What one fence pushes: the block of the fence opened on line [i]
    with text [lineText], or nothing. *)
Definition fencePushed (document : TextDocument) (i : nat) (lineText : string)
  : list CodeBlock :=
  let languageId := normalizeLangId (default "shellscript" (detectMarkdownLang lineText)) in
  let startLine := (Z.of_nat i + 1)%Z in
  let endLine := (Z.of_nat (closingOf document i) - 1)%Z in
  if (startLine <=? endLine)%Z && hasRunner languageId then
    [ mkCodeBlock startLine endLine languageId
        (join (textsBetween document startLine endLine)) (Z.of_nat i) ]
  else [].

(** The loop entered at cursor [i] with all the fuel it can use. *)
Definition markdownFrom (document : TextDocument) (i : nat) : list CodeBlock :=
  markdownLoop document (lineCount document - i) i.

(** Blocks as the scan pushes them: a block opens at or after line [lo],
    its content starts right after its anchor and has at least one line,
    it ends before line [n], and whatever follows it opens after the line
    that follows its end. *)
Fixpoint chained (lo n : Z) (bs : list CodeBlock) : Prop :=
  match bs with
  | [] => True
  | b :: bs' =>
      (lo ≤ lensLine b ∧ startLine b = lensLine b + 1
       ∧ startLine b ≤ endLine b ∧ endLine b ≤ n - 1)%Z
      ∧ chained (endLine b + 2) n bs'
  end.

(** The cursors at which the outer loop tests a line: the scan is then
    outside every fence. *)
Inductive outerCursor (document : TextDocument) : nat -> Prop :=
| outer_start : outerCursor document 0
| outer_skip i ln :
    outerCursor document i -> lineAt document i = Some ln ->
    testFence (text ln) = false -> outerCursor document (S i)
| outer_fence i ln :
    outerCursor document i -> lineAt document i = Some ln ->
    testFence (text ln) = true ->
    outerCursor document (S (closingOf document i)).

(** ** Auxiliary notions for the section scan *)

(** Line [i] exists and is blank. *)
Definition isBlankAt (document : TextDocument) (i : nat) : bool :=
  match lineAt document i with
  | Some ln => isEmptyOrWhitespace ln
  | None => false
  end.

(** Line [i] exists and is not blank. *)
Definition isTextAt (document : TextDocument) (i : nat) : bool :=
  match lineAt document i with
  | Some ln => negb (isEmptyOrWhitespace ln)
  | None => false
  end.

(** The value of [j] after the look-ahead started on line [i]. *)
Definition blankEnd (document : TextDocument) (i : nat) : nat :=
  skipBlank (drop i (lines document)) i.

(** The push that follows the [for] loop. *)
Definition atEnd (document : TextDocument) (sectionStart : option nat)
  : list SectionRange :=
  match sectionStart with
  | Some s => [ mkSection (Z.of_nat s) (Z.of_nat (lineCount document) - 1) ]
  | None => []
  end.

(** The [for] loop entered at cursor [i] with all the fuel it can use. *)
Definition sectionsFrom (document : TextDocument) (i : nat)
  (sectionStart : option nat) : list SectionRange :=
  sectionLoop document (lineCount document - i) i sectionStart.

(** What the loop maintains at the head of an iteration with cursor [i]:
    an open section started on a non-blank line before [i], and when the
    line before [i] is blank it is a single blank line inside the
    section; with no open section, either no text was seen yet or the two
    lines before [i] are blank. *)
Definition loopInv (document : TextDocument) (i : nat)
  (sectionStart : option nat) : Prop :=
  i ≤ lineCount document ∧
  match sectionStart with
  | Some s =>
      s < i ∧ isTextAt document s = true
      ∧ (isBlankAt document (i - 1) = true ->
         s < i - 1 ∧ isTextAt document (i - 2) = true
         ∧ (i < lineCount document -> isTextAt document i = true))
  | None =>
      (forall j, j < i -> isBlankAt document j = true)
      ∨ (2 ≤ i ∧ isBlankAt document (i - 1) = true
         ∧ isBlankAt document (i - 2) = true)
  end.

(** A well-formed section: it starts on a non-blank line, and ends on a
    non-blank line or, with one blank line after its last non-blank
    line, on the last line of the document. *)
Definition goodSection (document : TextDocument) (sec : SectionRange) : Prop :=
  exists s e,
    start sec = Z.of_nat s ∧ end_ sec = Z.of_nat e
    ∧ s ≤ e ∧ e < lineCount document
    ∧ isTextAt document s = true
    ∧ (isTextAt document e = true
       ∨ (S e = lineCount document ∧ s < e
          ∧ isBlankAt document e = true ∧ isTextAt document (e - 1) = true)).

(** Sections in document order: each starts at or after [lo] and the
    next one starts after its end. *)
Fixpoint ordered (lo : Z) (secs : list SectionRange) : Prop :=
  match secs with
  | [] => True
  | sec :: secs' =>
      (lo ≤ start sec ∧ start sec ≤ end_ sec)%Z ∧ ordered (end_ sec + 1) secs'
  end.

(** ** Sections as the specification describes them *)

(** Follows the spec's words: a section is a maximal run of text that
    only a gap of two or more blank lines splits from its neighbours.
    Line [i] begins a section when it is not blank and either no
    non-blank line precedes it or the two lines before it are blank. *)
Definition specSectionHead (document : TextDocument) (i : nat) : bool :=
  isTextAt document i
  && (forallb (isBlankAt document) (seq 0 i)
      || ((2 <=? i) && isBlankAt document (i - 1) && isBlankAt document (i - 2))).

Definition specSectionHeads (document : TextDocument) : list nat :=
  List.filter (specSectionHead document) (seq 0 (lineCount document)).

(** The number of sections of the document. *)
Definition specSectionCount (document : TextDocument) : nat :=
  length (specSectionHeads document).

(** ** Sample documents *)

(** A fenced block closed by a fence. *)
Definition docFenced : TextDocument :=
  docOf "markdown" ["```python"; "print(1)"; "print(2)"; "```"].

(** Two fenced blocks, the tag of the second one an alias in capitals. *)
Definition docTwoFences : TextDocument :=
  docOf "markdown" ["```python"; "print(1)"; "```"; "text"; "```SH"; "ls"; "```"].

(** A fence that no later line closes. *)
Definition docUnterminated : TextDocument :=
  docOf "markdown" ["```python"; "print(1)"].

(** A fence with nothing after the backticks. *)
Definition docBareFence : TextDocument :=
  docOf "markdown" ["```"; "echo hi"; "```"].

(** One blank line between two lines of text. *)
Definition docSingleBlank : TextDocument := docOf "python" ["a"; ""; "b"].

(** Two blank lines between two lines of text. *)
Definition docDoubleBlank : TextDocument := docOf "python" ["a"; ""; ""; "b"].

(** Two sections and one blank line at the end of the document. *)
Definition docTrailingBlank : TextDocument :=
  docOf "python" ["a"; ""; ""; "b"; ""].

(** An empty fence followed by a fence with one line. *)
Definition docEmptyFence : TextDocument :=
  docOf "markdown" ["```python"; "```"; "```sh"; "ls"; "```"].

(** A document that is one empty line. *)
Definition docEmptyLine : TextDocument := docOf "python" [""].

(** A source document in a language without a runner. *)
Definition docNoRunner : TextDocument := docOf "haskell" ["main = pure ()"].



(** ** Code lenses *)

(** [new vscode.Range(startLine, startCharacter, endLine, endCharacter)]. *)
Record Range := mkRange {
  rangeStartLine : Z;
  rangeStartCharacter : Z;
  rangeEndLine : Z;
  rangeEndCharacter : Z
}.

(** [new vscode.CodeLens(range, { title, command, arguments })]. *)
Record CodeLens := mkCodeLens {
  range : Range;
  title : string;
  lensCommand : string;
  arguments : list CodeBlock
}.

(** An integer inside a template literal. *)
Definition numberToString (n : Z) : string :=
  NilZero.string_of_int (Z.to_int n).

(** The title computed in [provideCodeLenses] for one block. *)
Definition lensTitle (document : TextDocument) (block : CodeBlock) : string :=
  let isWholeFile :=
    (startLine block =? 0)%Z
    && (endLine block =? Z.of_nat (lineCount document) - 1)%Z
    && negb (bool_decide (languageId document = "markdown")) in
  if isWholeFile then "▶ Run Entire File"
  else if (startLine block =? endLine block)%Z then
    "▶ Run Block (line " +:+ numberToString (startLine block + 1) +:+ ")"
  else
    "▶ Run Block (lines " +:+ numberToString (startLine block + 1) +:+ "–"
    +:+ numberToString (endLine block + 1) +:+ ")".

(** [provideCodeLenses(document)]; [showCodeLens] is the value of the
    setting [runCodeBlock.showCodeLens]. *)
Definition provideCodeLenses (showCodeLens : bool) (document : TextDocument)
  : list CodeLens :=
  if negb showCodeLens then []
  else
    let blocks := findCodeBlocks document in
    (fun block =>
       mkCodeLens (mkRange (lensLine block) 0 (lensLine block) 0)
         (lensTitle document block) "runCodeBlock.run" [block])
    <$> blocks.

(** ** Running the block at the cursor *)

(** [blocks.find((b) => cursorLine >= b.lensLine && cursorLine <= b.endLine)]. *)
Definition blockAtCursor (blocks : list CodeBlock) (cursorLine : Z)
  : option CodeBlock :=
  List.find (fun b => (lensLine b <=? cursorLine)%Z && (cursorLine <=? endLine b)%Z)
    blocks.

(** What the command [runCodeBlock.runAtCursor] does. *)
Inductive CommandOutcome :=
| WarnNoActiveEditor
| RunBlock (block : CodeBlock)
| InfoNoBlockAtCursor.

(** The command [runCodeBlock.runAtCursor]; [editor] is the active
    editor, with its document and the line of its cursor. *)
Definition runAtCursor (editor : option (TextDocument * Z)) : CommandOutcome :=
  match editor with
  | None => WarnNoActiveEditor
  | Some (document, cursorLine) =>
      let blocks := findCodeBlocks document in
      match blockAtCursor blocks cursorLine with
      | Some block => RunBlock block
      | None => InfoNoBlockAtCursor
      end
  end.

(** The text [runBlock] sends to the terminal. *)
Definition runBlockText (block : CodeBlock) : string :=
  "{ " +:+ code block +:+ newline +:+ "}".

(** ** The terminal *)

(** A terminal object, known by its identity. *)
Definition Terminal : Type := nat.

(** [vscode.window]: [activeTerminal] and [terminals]. *)
Record Window := mkWindow {
  activeTerminal : option Terminal;
  terminals : list Terminal
}.

(** The result of [getTerminal]: the terminal returned, the value of
    [sharedTerminal] afterwards, and whether [createTerminal] was
    called. *)
Record TerminalChoice := mkChoice {
  chosen : Terminal;
  sharedAfter : option Terminal;
  created : bool
}.

(** [getTerminal()]; [reuse] is the value of the setting
    [runCodeBlock.reuseTerminal] and [fresh] the terminal that
    [createTerminal] returns when it is called. *)
Definition getTerminal (reuse : bool) (window : Window)
  (sharedTerminal : option Terminal) (fresh : Terminal) : TerminalChoice :=
  match (if reuse then activeTerminal window else None) with
  | Some active => mkChoice active sharedTerminal false
  | None =>
      match (if reuse then sharedTerminal else None) with
      | Some shared =>
          if bool_decide (shared ∈ terminals window)
          then mkChoice shared sharedTerminal false
          else mkChoice fresh (Some fresh) true
      | None => mkChoice fresh (Some fresh) true
      end
  end.

(** The handler of [onDidCloseTerminal]: the new value of
    [sharedTerminal]. *)
Definition onDidCloseTerminal (terminal : Terminal)
  (sharedTerminal : option Terminal) : option Terminal :=
  if bool_decide (sharedTerminal = Some terminal) then None else sharedTerminal.

(** The window and the module variable [sharedTerminal]. *)
Record ExtensionState := mkState {
  window : Window;
  sharedTerminal : option Terminal
}.

(** What happens between two runs.  The extension's part is
    [getTerminal] and [onDidCloseTerminal]; the editor's part is that a
    created terminal joins [window.terminals], that a closed terminal
    leaves it (and stops being the active one) before the handler runs,
    and that the active terminal is an open one. *)
Inductive Event :=
| Run (reuse : bool) (fresh : Terminal)
| Close (terminal : Terminal)
| Focus (active : option Terminal).

Definition applyEvent (st : ExtensionState) (e : Event) : ExtensionState :=
  match e with
  | Run reuse fresh =>
      let choice := getTerminal reuse (window st) (sharedTerminal st) fresh in
      mkState
        (if created choice
         then mkWindow (activeTerminal (window st)) (terminals (window st) ++ [fresh])
         else window st)
        (sharedAfter choice)
  | Close terminal =>
      mkState
        (mkWindow
           (if bool_decide (activeTerminal (window st) = Some terminal)
            then None else activeTerminal (window st))
           (List.filter (fun t => negb (t =? terminal)) (terminals (window st))))
        (onDidCloseTerminal terminal (sharedTerminal st))
  | Focus active => mkState (mkWindow active (terminals (window st))) (sharedTerminal st)
  end.

(** The events the editor can produce in state [st]. *)
Definition possibleEvent (st : ExtensionState) (e : Event) : Prop :=
  match e with
  | Run _ fresh => fresh ∉ terminals (window st)
  | Close _ => True
  | Focus active => forall t, active = Some t -> t ∈ terminals (window st)
  end.

Fixpoint applyEvents (st : ExtensionState) (es : list Event) : ExtensionState :=
  match es with
  | [] => st
  | e :: es' => applyEvents (applyEvent st e) es'
  end.

Fixpoint possibleEvents (st : ExtensionState) (es : list Event) : Prop :=
  match es with
  | [] => True
  | e :: es' => possibleEvent st e ∧ possibleEvents (applyEvent st e) es'
  end.

(** The state when the extension is activated: no shared terminal yet,
    and no terminal open. *)
Definition initialState : ExtensionState := mkState (mkWindow None []) None.

(** The handles the extension reads refer to open terminals. *)
Definition openHandles (st : ExtensionState) : Prop :=
  (forall t, sharedTerminal st = Some t -> t ∈ terminals (window st))
  ∧ (forall t, activeTerminal (window st) = Some t -> t ∈ terminals (window st)).

(** ** Activation *)

(** [Object.keys(RUNNERS)]: the keys of the literal, in the order they
    are written. *)
Definition runnerKeys : list string :=
  [ "javascript"; "typescript"; "python"; "shellscript"; "ruby"; "go"; "rust";
    "java"; "c"; "cpp"; "php"; "perl"; "lua"; "r" ].

(** The languages [activate] registers the lens provider for. *)
Definition registeredLanguages : list string := runnerKeys ++ ["markdown"].

(** * Properties *)

(** ** Characters and tags *)

Lemma lowerChar_idem c : lowerChar (lowerChar c) = lowerChar c.
Proof. by destruct c as [[] [] [] [] [] [] [] []]. Qed.

Lemma isWordChar_lowerChar c : isWordChar (lowerChar c) = isWordChar c.
Proof. by destruct c as [[] [] [] [] [] [] [] []]. Qed.

Lemma toLowerCase_idem s : toLowerCase (toLowerCase s) = toLowerCase s.
Proof. induction s as [|c s IH]; simpl; [done|]. by rewrite lowerChar_idem, IH. Qed.

Lemma wordRun_toLowerCase s : wordRun (toLowerCase s) = toLowerCase (wordRun s).
Proof.
  induction s as [|c s IH]; simpl; [done|].
  rewrite isWordChar_lowerChar. destruct (isWordChar c); simpl; [|done].
  by rewrite IH.
Qed.

Lemma toLowerCase_empty s : toLowerCase s = "" -> s = "".
Proof. by destruct s. Qed.

Lemma afterFence_fence r : afterFence (fence +:+ r) = Some r.
Proof. done. Qed.

Lemma afterFence_Some s r : afterFence s = Some r -> s = fence +:+ r.
Proof.
  destruct s as [|a [|b [|c s]]]; simpl; [done|..];
    destruct a as [[] [] [] [] [] [] [] []]; try done;
    destruct b as [[] [] [] [] [] [] [] []]; try done;
    destruct c as [[] [] [] [] [] [] [] []]; try done.
  by intros [= ->].
Qed.

Lemma matchFence_fence r :
  matchFence (fence +:+ r) = if decide (wordRun r = "") then None else Some (wordRun r).
Proof.
  unfold matchFence. rewrite afterFence_fence.
  destruct (wordRun r); by case_decide.
Qed.

Lemma testFence_detect lineText :
  testFence lineText = true -> is_Some (detectMarkdownLang lineText).
Proof.
  unfold testFence, detectMarkdownLang. intros H%bool_decide_eq_true.
  destruct H as [m ->]. eauto.
Qed.

Lemma detect_testFence lineText :
  is_Some (detectMarkdownLang lineText) -> testFence lineText = true.
Proof.
  unfold testFence, detectMarkdownLang. intros [m H].
  apply bool_decide_eq_true. destruct (matchFence lineText); [eauto|done].
Qed.

(** ** Cursors and lines *)

Lemma lineAt_lt document i ln :
  lineAt document i = Some ln -> i < lineCount document.
Proof. apply lookup_lt_Some. Qed.

Lemma lineAt_None document i :
  lineAt document i = None <-> lineCount document ≤ i.
Proof. apply lookup_ge_None. Qed.

Lemma lineAt_is_Some document i :
  i < lineCount document -> is_Some (lineAt document i).
Proof. apply lookup_lt_is_Some_2. Qed.

(** Induction on a cursor that only moves forward and stops at [n]. *)
Lemma cursor_ind (n : nat) (P : nat -> Prop) :
  (forall i, (forall j, i < j -> i < n -> P j) -> P i) -> forall i, P i.
Proof.
  intros step i.
  remember (n - i) as k eqn:Hk.
  revert i Hk. induction (lt_wf k) as [k _ IH]. intros i ->.
  apply step. intros j Hij Hin. apply (IH (n - j)); [lia|done].
Qed.

(** ** The markdown loop *)

Lemma findClosing_bounds rest i :
  i ≤ findClosing rest i ≤ i + length rest.
Proof.
  revert i. induction rest as [|ln rest IH]; intros i; simpl; [lia|].
  destruct (startsWithFence (text ln)); [lia|].
  specialize (IH (S i)). lia.
Qed.

Lemma findClosing_before rest i k ln :
  rest !! k = Some ln -> i + k < findClosing rest i ->
  startsWithFence (text ln) = false.
Proof.
  revert i k. induction rest as [|l0 rest IH]; intros i k; [done|].
  simpl. destruct (startsWithFence (text l0)) eqn:E; [lia|].
  destruct k as [|k]; simpl.
  - by intros [= <-].
  - intros Hk Hlt. apply (IH (S i) k); [done|lia].
Qed.

Lemma findClosing_at rest i :
  findClosing rest i = i + length rest
  ∨ exists ln, rest !! (findClosing rest i - i) = Some ln
               ∧ startsWithFence (text ln) = true.
Proof.
  revert i. induction rest as [|l0 rest IH]; intros i; simpl; [left; lia|].
  destruct (startsWithFence (text l0)) eqn:E.
  - right. exists l0. by rewrite Nat.sub_diag.
  - destruct (IH (S i)) as [->|(ln & Hln & Hf)]; [left; lia|right].
    exists ln. split; [|done].
    pose proof (findClosing_bounds rest (S i)).
    replace (findClosing rest (S i) - i) with (S (findClosing rest (S i) - S i)) by lia.
    done.
Qed.

Lemma findClosing_none rest i :
  (forall k ln, rest !! k = Some ln -> startsWithFence (text ln) = false) ->
  findClosing rest i = i + length rest.
Proof.
  intros Hno. destruct (findClosing_at rest i) as [|(ln & Hln & Hf)]; [done|].
  by rewrite (Hno _ _ Hln) in Hf.
Qed.

Lemma closingOf_bounds document i :
  i < lineCount document -> S i ≤ closingOf document i ≤ lineCount document.
Proof.
  intros Hi. unfold closingOf, lineCount in *.
  pose proof (findClosing_bounds (drop (S i) (lines document)) (S i)) as H.
  rewrite length_drop in H. lia.
Qed.

(** The fuel never runs out: any amount that covers the remaining lines
    gives the same blocks. *)
Lemma markdownLoop_fuel document f1 :
  forall f2 i, lineCount document ≤ f1 + i -> lineCount document ≤ f2 + i ->
  markdownLoop document f1 i = markdownLoop document f2 i.
Proof.
  induction f1 as [|f1 IH]; intros f2 i H1 H2.
  - assert (lineAt document i = None) as Hn by (apply lineAt_None; lia).
    destruct f2; simpl; [done|]. by rewrite Hn.
  - destruct f2 as [|f2].
    + assert (lineAt document i = None) as Hn by (apply lineAt_None; lia).
      simpl. by rewrite Hn.
    + simpl. destruct (lineAt document i) as [ln|] eqn:Hln; [|done].
      pose proof (closingOf_bounds document i (lineAt_lt _ _ _ Hln)) as Hc.
      unfold closingOf in Hc.
      destruct (testFence (text ln)).
      * f_equal. apply IH; lia.
      * apply IH; lia.
Qed.

(** The equation of the [while] loop. *)
Lemma markdownFrom_eq document i :
  markdownFrom document i =
  match lineAt document i with
  | None => []
  | Some ln =>
      if testFence (text ln) then
        fencePushed document i (text ln)
        ++ markdownFrom document (S (closingOf document i))
      else markdownFrom document (S i)
  end.
Proof.
  unfold markdownFrom at 1.
  destruct (lineAt document i) as [ln|] eqn:Hln.
  - pose proof (lineAt_lt _ _ _ Hln) as Hi.
    pose proof (closingOf_bounds document i Hi) as Hc.
    destruct (lineCount document - i) as [|f] eqn:Hf; [lia|].
    simpl. rewrite Hln. fold (closingOf document i).
    destruct (testFence (text ln)).
    + unfold fencePushed. f_equal. apply markdownLoop_fuel; lia.
    + apply markdownLoop_fuel; lia.
  - destruct (lineCount document - i); simpl; [done|]. by rewrite Hln.
Qed.

Lemma findMarkdownBlocks_from document :
  findMarkdownBlocks document = markdownFrom document 0.
Proof. unfold findMarkdownBlocks, markdownFrom. by rewrite Nat.sub_0_r. Qed.

Lemma chained_weaken lo lo' n bs :
  (lo' ≤ lo)%Z -> chained lo n bs -> chained lo' n bs.
Proof. destruct bs as [|b bs]; simpl; [done|]. intros ? [? ?]. split; [lia|done]. Qed.

Lemma markdownFrom_chained document :
  forall i, chained (Z.of_nat i) (Z.of_nat (lineCount document))
                    (markdownFrom document i).
Proof.
  apply (cursor_ind (lineCount document)). intros i IH.
  rewrite markdownFrom_eq.
  destruct (lineAt document i) as [ln|] eqn:Hln; [|done].
  pose proof (lineAt_lt _ _ _ Hln) as Hi.
  pose proof (closingOf_bounds document i Hi) as Hc.
  destruct (testFence (text ln)).
  - unfold fencePushed.
    destruct ((Z.of_nat i + 1 <=? Z.of_nat (closingOf document i) - 1)%Z
              && hasRunner _) eqn:Hcond; simpl.
    + apply andb_true_iff in Hcond as [Hle%Z.leb_le _].
      split; [lia|].
      eapply chained_weaken; [|apply (IH (S (closingOf document i))); lia]. lia.
    + eapply chained_weaken; [|apply (IH (S (closingOf document i))); lia]. lia.
  - eapply chained_weaken; [|apply (IH (S i)); lia]. lia.
Qed.

Lemma chained_elem lo n bs b :
  chained lo n bs -> b ∈ bs ->
  (lo ≤ lensLine b ∧ startLine b = lensLine b + 1
   ∧ startLine b ≤ endLine b ∧ endLine b ≤ n - 1)%Z.
Proof.
  revert lo. induction bs as [|b0 bs IH]; intros lo; simpl.
  - by intros _ ?%elem_of_nil.
  - intros [H0 Hrest] [->|Hin]%elem_of_cons; [done|].
    specialize (IH _ Hrest Hin). lia.
Qed.

Lemma chained_later lo n bs j k b1 b2 :
  chained lo n bs -> j < k -> bs !! j = Some b1 -> bs !! k = Some b2 ->
  (endLine b1 + 2 ≤ lensLine b2)%Z.
Proof.
  revert lo j k. induction bs as [|b0 bs IH]; intros lo j k; [done|].
  simpl. intros [H0 Hrest] Hjk Hj Hk.
  destruct k as [|k]; [lia|]. simpl in Hk.
  destruct j as [|j]; simpl in Hj.
  - injection Hj as <-.
    pose proof (chained_elem _ _ _ _ Hrest (list_elem_of_lookup_2 _ _ _ Hk)). lia.
  - apply (IH _ j k Hrest); [lia|done..].
Qed.

Lemma fencePushed_lens document i lineText b :
  b ∈ fencePushed document i lineText -> lensLine b = Z.of_nat i.
Proof.
  unfold fencePushed. destruct (_ && _).
  - by intros ->%list_elem_of_singleton.
  - by intros ?%elem_of_nil.
Qed.

(** What the scan has pushed when its cursor is at [k], and what it
    pushes from there on. *)
Lemma outerCursor_split document k :
  outerCursor document k ->
  exists pre, findMarkdownBlocks document = pre ++ markdownFrom document k
              ∧ Forall (fun b => (lensLine b < Z.of_nat k)%Z) pre.
Proof.
  induction 1 as [|i ln _ (pre & Heq & Hpre) Hln Ht|i ln _ (pre & Heq & Hpre) Hln Ht].
  - exists []. split; [apply findMarkdownBlocks_from|constructor].
  - exists pre. rewrite markdownFrom_eq, Hln, Ht in Heq. split; [done|].
    eapply Forall_impl; [done|]. simpl. lia.
  - pose proof (closingOf_bounds document i (lineAt_lt _ _ _ Hln)) as Hc.
    exists (pre ++ fencePushed document i (text ln)).
    rewrite markdownFrom_eq, Hln, Ht in Heq. split; [by rewrite <- app_assoc|].
    apply Forall_app. split.
    + eapply Forall_impl; [done|]. simpl. lia.
    + apply Forall_forall. intros b ->%fencePushed_lens. lia.
Qed.

Lemma textsBetween_to_end document (k : nat) :
  textsBetween document (Z.of_nat k) (Z.of_nat (lineCount document) - 1)
  = text <$> drop k (lines document).
Proof.
  unfold textsBetween. rewrite Nat2Z.id. f_equal.
  apply take_ge. rewrite length_drop. unfold lineCount. lia.
Qed.

Lemma closingOf_unterminated document k :
  (forall j l, k < j -> lineAt document j = Some l ->
               startsWithFence (text l) = false) ->
  k < lineCount document -> closingOf document k = lineCount document.
Proof.
  intros Hno Hk. unfold closingOf. rewrite findClosing_none.
  - rewrite length_drop. unfold lineCount in *. lia.
  - intros j l. rewrite lookup_drop. apply Hno. lia.
Qed.

(** ** The section loop *)

Lemma isTextAt_lt document i : isTextAt document i = true -> i < lineCount document.
Proof.
  unfold isTextAt. destruct (lineAt document i) eqn:E; [|done].
  intros _. by eapply lineAt_lt.
Qed.

Lemma isBlankAt_lt document i : isBlankAt document i = true -> i < lineCount document.
Proof.
  unfold isBlankAt. destruct (lineAt document i) eqn:E; [|done].
  intros _. by eapply lineAt_lt.
Qed.

Lemma isTextAt_not_blank document i :
  isTextAt document i = true -> isBlankAt document i = false.
Proof.
  unfold isTextAt, isBlankAt. destruct (lineAt document i); [|done].
  by destruct (isEmptyOrWhitespace _).
Qed.

Lemma not_blank_isTextAt document i :
  i < lineCount document -> isBlankAt document i = false ->
  isTextAt document i = true.
Proof.
  intros [ln Hln]%lineAt_is_Some. unfold isTextAt, isBlankAt. rewrite Hln.
  by destruct (isEmptyOrWhitespace _).
Qed.

Lemma skipBlank_bounds rest j : j ≤ skipBlank rest j ≤ j + length rest.
Proof.
  revert j. induction rest as [|ln rest IH]; intros j; simpl; [lia|].
  destruct (isEmptyOrWhitespace ln); [|lia].
  specialize (IH (S j)). lia.
Qed.

Lemma skipBlank_before rest j k ln :
  rest !! k = Some ln -> j + k < skipBlank rest j ->
  isEmptyOrWhitespace ln = true.
Proof.
  revert j k. induction rest as [|l0 rest IH]; intros j k; [done|].
  simpl. destruct (isEmptyOrWhitespace l0) eqn:E; [|lia].
  destruct k as [|k]; simpl.
  - by intros [= <-].
  - intros Hk Hlt. apply (IH (S j) k); [done|lia].
Qed.

Lemma skipBlank_at rest j ln :
  rest !! (skipBlank rest j - j) = Some ln -> isEmptyOrWhitespace ln = false.
Proof.
  revert j. induction rest as [|l0 rest IH]; intros j; [done|].
  simpl. destruct (isEmptyOrWhitespace l0) eqn:E.
  - pose proof (skipBlank_bounds rest (S j)).
    replace (skipBlank rest (S j) - j) with (S (skipBlank rest (S j) - S j)) by lia.
    apply IH.
  - rewrite Nat.sub_diag. by intros [= <-].
Qed.

Lemma blankEnd_bounds document i :
  i ≤ lineCount document -> i ≤ blankEnd document i ≤ lineCount document.
Proof.
  intros Hi. unfold blankEnd, lineCount in *.
  pose proof (skipBlank_bounds (drop i (lines document)) i) as H.
  rewrite length_drop in H. lia.
Qed.

Lemma blankEnd_blank document i j :
  i ≤ j -> j < blankEnd document i -> isBlankAt document j = true.
Proof.
  intros Hij Hj. unfold isBlankAt, lineAt.
  destruct (lines document !! j) as [ln|] eqn:Hln.
  - apply (skipBlank_before (drop i (lines document)) i (j - i)).
    + rewrite lookup_drop. by replace (i + (j - i)) with j by lia.
    + fold (blankEnd document i). lia.
  - apply lookup_ge_None in Hln. unfold blankEnd in Hj.
    pose proof (skipBlank_bounds (drop i (lines document)) i) as H.
    rewrite length_drop in H. lia.
Qed.

Lemma blankEnd_stop document i :
  i ≤ lineCount document -> blankEnd document i < lineCount document ->
  isTextAt document (blankEnd document i) = true.
Proof.
  intros Hi Hlt. pose proof (blankEnd_bounds document i Hi) as Hb.
  destruct (lineAt_is_Some document _ Hlt) as [ln Hln].
  unfold isTextAt. rewrite Hln.
  rewrite (skipBlank_at (drop i (lines document)) i ln); [done|].
  fold (blankEnd document i). rewrite lookup_drop.
  by replace (i + (blankEnd document i - i)) with (blankEnd document i) by lia.
Qed.

Lemma blankEnd_step document i :
  isBlankAt document i = true -> S i ≤ blankEnd document i.
Proof.
  unfold isBlankAt, blankEnd, lineAt. intros H.
  destruct (lines document !! i) as [ln|] eqn:Hln; [|done].
  rewrite (drop_S _ _ _ Hln). simpl. rewrite H.
  apply skipBlank_bounds.
Qed.

(** The fuel never runs out in the section loop either. *)
Lemma sectionLoop_fuel document f1 :
  forall f2 i st, lineCount document ≤ f1 + i -> lineCount document ≤ f2 + i ->
  sectionLoop document f1 i st = sectionLoop document f2 i st.
Proof.
  induction f1 as [|f1 IH]; intros f2 i st H1 H2.
  - assert (lineAt document i = None) as Hn by (apply lineAt_None; lia).
    destruct f2; simpl; [done|]. by rewrite Hn.
  - destruct f2 as [|f2].
    + assert (lineAt document i = None) as Hn by (apply lineAt_None; lia).
      simpl. by rewrite Hn.
    + cbn [sectionLoop]. destruct (lineAt document i) as [ln|] eqn:Hln; [|done].
      fold (blankEnd document i).
      pose proof (blankEnd_bounds document i (Nat.lt_le_incl _ _ (lineAt_lt _ _ _ Hln))).
      destruct (negb (isEmptyOrWhitespace ln)).
      * destruct st; apply IH; lia.
      * destruct st as [s|]; [|apply IH; lia].
        destruct (2 <=? blankEnd document i - i) eqn:E; [|apply IH; lia].
        apply Nat.leb_le in E. f_equal. apply IH; lia.
Qed.

(** The equation of the [for] loop. *)
Lemma sectionsFrom_eq document i st :
  sectionsFrom document i st =
  match lineAt document i with
  | None => atEnd document st
  | Some ln =>
      if negb (isEmptyOrWhitespace ln) then
        sectionsFrom document (S i) (Some (default i st))
      else
        match st with
        | Some s =>
            if 2 <=? blankEnd document i - i then
              mkSection (Z.of_nat s) (Z.of_nat i - 1)
              :: sectionsFrom document (blankEnd document i) None
            else sectionsFrom document (S i) st
        | None => sectionsFrom document (S i) st
        end
  end.
Proof.
  unfold sectionsFrom at 1.
  destruct (lineAt document i) as [ln|] eqn:Hln.
  - pose proof (lineAt_lt _ _ _ Hln) as Hi.
    destruct (lineCount document - i) as [|f] eqn:Hf; [lia|].
    cbn [sectionLoop]. rewrite Hln. fold (blankEnd document i).
    pose proof (blankEnd_bounds document i (Nat.lt_le_incl _ _ Hi)).
    destruct (negb (isEmptyOrWhitespace ln)).
    + destruct st; apply sectionLoop_fuel; lia.
    + destruct st as [s|]; [|apply sectionLoop_fuel; lia].
      destruct (2 <=? blankEnd document i - i) eqn:E; [|apply sectionLoop_fuel; lia].
      apply Nat.leb_le in E. f_equal. apply sectionLoop_fuel; lia.
  - destruct (lineCount document - i); simpl; [done|]. by rewrite Hln.
Qed.

Lemma findSections_from document :
  findSections document = sectionsFrom document 0 None.
Proof. unfold findSections, sectionsFrom. by rewrite Nat.sub_0_r. Qed.

Lemma loopInv_start document : loopInv document 0 None.
Proof. split; [lia|]. left. lia. Qed.

Lemma loopInv_closing_text document i s :
  loopInv document i (Some s) -> isBlankAt document i = true ->
  isTextAt document (i - 1) = true.
Proof.
  intros (Hi & Hs & Hts & Hprev) Hb.
  pose proof (isBlankAt_lt _ _ Hb) as Hlt.
  apply not_blank_isTextAt; [lia|].
  destruct (isBlankAt document (i - 1)) eqn:E; [|done].
  destruct (Hprev eq_refl) as (_ & _ & Hnext).
  apply isTextAt_not_blank in Hnext; [congruence|done].
Qed.

(** Induction along the iterations of the section loop: one case per
    path through the loop body, each with what the loop maintains. *)
Lemma sections_ind document (P : nat -> option nat -> list SectionRange -> Prop) :
  (forall i st, loopInv document i st -> i = lineCount document ->
     P i st (atEnd document st)) ->
  (forall i r, loopInv document i None -> isTextAt document i = true ->
     P (S i) (Some i) r -> P i None r) ->
  (forall i s r, loopInv document i (Some s) -> isTextAt document i = true ->
     P (S i) (Some s) r -> P i (Some s) r) ->
  (forall i r, loopInv document i None -> isBlankAt document i = true ->
     P (S i) None r -> P i None r) ->
  (forall i s j r, loopInv document i (Some s) -> isBlankAt document i = true ->
     j = blankEnd document i -> i + 2 ≤ j -> j ≤ lineCount document ->
     isTextAt document (i - 1) = true ->
     P j None r -> P i (Some s) (mkSection (Z.of_nat s) (Z.of_nat i - 1) :: r)) ->
  (forall i s r, loopInv document i (Some s) -> isBlankAt document i = true ->
     blankEnd document i = S i -> P (S i) (Some s) r -> P i (Some s) r) ->
  forall i st, loopInv document i st -> P i st (sectionsFrom document i st).
Proof.
  intros Hend HtextN HtextS HblankN Hclose Hsingle.
  apply (cursor_ind (lineCount document)
           (fun i => forall st, loopInv document i st ->
                                P i st (sectionsFrom document i st))).
  intros i IH st Hinv. rewrite sectionsFrom_eq.
  destruct (lineAt document i) as [ln|] eqn:Hln; cycle 1.
  { apply Hend; [done|]. apply lineAt_None in Hln. destruct Hinv. lia. }
  pose proof (lineAt_lt _ _ _ Hln) as Hi.
  destruct (isEmptyOrWhitespace ln) eqn:Hblank; cbn [negb].
  - assert (isBlankAt document i = true) as Hb
        by (unfold isBlankAt; by rewrite Hln).
    destruct st as [s|].
    + pose proof (loopInv_closing_text _ _ _ Hinv Hb) as Hprev.
      pose proof (blankEnd_step _ _ Hb) as Hstep.
      pose proof (blankEnd_bounds document i (Nat.lt_le_incl _ _ Hi)) as Hbound.
      pose proof Hinv as (Hle & Hs & Hts & Hsingleblank).
      destruct (2 <=? blankEnd document i - i) eqn:E.
      * apply Nat.leb_le in E.
        apply (Hclose i s (blankEnd document i)); try done; try lia.
        apply IH; [lia..|]. split; [lia|]. right.
        split; [lia|]. split; apply (blankEnd_blank document i); lia.
      * apply Nat.leb_gt in E.
        assert (blankEnd document i = S i) as Hj by lia.
        apply Hsingle; try done.
        apply IH; [lia..|]. split; [lia|]. split; [lia|]. split; [done|].
        replace (S i - 1) with i by lia. replace (S i - 2) with (i - 1) by lia.
        intros _. split; [|split; [done|]].
        -- assert (s ≠ i - 0) by (intros ->; rewrite Nat.sub_0_r in *;
             apply isTextAt_not_blank in Hts; congruence). lia.
        -- intros Hlt. rewrite <- Hj. apply blankEnd_stop; lia.
    + apply HblankN; try done.
      apply IH; [lia..|]. pose proof Hinv as (Hle & Hcases).
      split; [lia|]. destruct Hcases as [Hall|(H2 & Hb1 & Hb2)].
      * left. intros j Hj. destruct (decide (j = i)) as [->|]; [done|].
        apply Hall. lia.
      * right. split; [lia|].
        replace (S i - 1) with i by lia. by replace (S i - 2) with (i - 1) by lia.
  - assert (isTextAt document i = true) as Ht
        by (unfold isTextAt; by rewrite Hln, Hblank).
    pose proof (isTextAt_not_blank _ _ Ht) as Hnb.
    destruct st as [s|]; simpl.
    + apply HtextS; try done.
      apply IH; [lia..|]. pose proof Hinv as (Hle & Hs & Hts & _).
      split; [lia|]. split; [lia|]. split; [done|].
      replace (S i - 1) with i by lia. congruence.
    + apply HtextN; try done.
      apply IH; [lia..|]. split; [lia|]. split; [lia|]. split; [done|].
      replace (S i - 1) with i by lia. congruence.
Qed.

Lemma sectionsFrom_good document i st :
  loopInv document i st -> Forall (goodSection document) (sectionsFrom document i st).
Proof.
  revert i st.
  apply (sections_ind document (fun _ _ r => Forall (goodSection document) r));
    try done.
  - intros i [s|] (Hle & Hinv) ->; simpl; [|constructor].
    destruct Hinv as (Hs & Hts & Hprev).
    constructor; [|constructor].
    exists s, (lineCount document - 1). simpl.
    repeat split; try done; try lia.
    destruct (isBlankAt document (lineCount document - 1)) eqn:E.
    + right. destruct (Hprev eq_refl) as (Hlt & Ht2 & _).
      repeat split; try done; try lia.
      by replace (lineCount document - 1 - 1) with (lineCount document - 2) by lia.
    + left. apply not_blank_isTextAt; [lia|done].
  - intros i s j r (Hle & Hs & Hts & _) Hb -> Hj Hjn Hprev Hr.
    constructor; [|done].
    exists s, (i - 1). simpl.
    pose proof (isBlankAt_lt _ _ Hb).
    repeat split; try done; try lia. by left.
Qed.

Lemma ordered_weaken lo lo' secs :
  (lo' ≤ lo)%Z -> ordered lo secs -> ordered lo' secs.
Proof.
  destruct secs as [|sec secs]; simpl; [done|].
  intros ? [? ?]. split; [lia|done].
Qed.

Lemma sectionsFrom_ordered document i st :
  loopInv document i st ->
  match st with
  | None => ordered (Z.of_nat i) (sectionsFrom document i st)
  | Some s =>
      exists sec secs, sectionsFrom document i st = sec :: secs
        ∧ start sec = Z.of_nat s ∧ (Z.of_nat i - 1 ≤ end_ sec)%Z
        ∧ ordered (end_ sec + 1) secs
  end.
Proof.
  revert i st.
  apply (sections_ind document (fun i st r =>
    match st with
    | None => ordered (Z.of_nat i) r
    | Some s =>
        exists sec secs, r = sec :: secs
          ∧ start sec = Z.of_nat s ∧ (Z.of_nat i - 1 ≤ end_ sec)%Z
          ∧ ordered (end_ sec + 1) secs
    end)).
  - intros i [s|] _ ->; simpl; [|done].
    eexists _, []. split; [done|]. simpl. repeat split; lia.
  - intros i r _ _ (sec & secs & -> & Hs & He & Hord). simpl.
    split; [lia|done].
  - intros i s r _ _ (sec & secs & -> & Hs & He & Hord).
    exists sec, secs. repeat split; try done. lia.
  - intros i r _ _ Hord. eapply ordered_weaken; [|done]. lia.
  - intros i s j r _ _ _ Hj _ _ Hord.
    eexists _, r. split; [done|]. simpl. repeat split; try lia.
    eapply ordered_weaken; [|done]. lia.
  - intros i s r _ _ _ (sec & secs & -> & Hs & He & Hord).
    exists sec, secs. repeat split; try done. lia.
Qed.

Lemma ordered_elem lo secs sec :
  ordered lo secs -> sec ∈ secs -> (lo ≤ start sec ∧ start sec ≤ end_ sec)%Z.
Proof.
  revert lo. induction secs as [|s0 secs IH]; intros lo; simpl.
  - by intros _ ?%elem_of_nil.
  - intros [H0 Hrest] [->|Hin]%elem_of_cons; [done|].
    specialize (IH _ Hrest Hin). lia.
Qed.

Lemma ordered_later lo secs j k s1 s2 :
  ordered lo secs -> j < k -> secs !! j = Some s1 -> secs !! k = Some s2 ->
  (end_ s1 < start s2)%Z.
Proof.
  revert lo j k. induction secs as [|s0 secs IH]; intros lo j k; [done|].
  simpl. intros [H0 Hrest] Hjk Hj Hk.
  destruct k as [|k]; [lia|]. simpl in Hk.
  destruct j as [|j]; simpl in Hj.
  - injection Hj as <-.
    pose proof (ordered_elem _ _ _ Hrest (list_elem_of_lookup_2 _ _ _ Hk)). lia.
  - apply (IH _ j k Hrest); [lia|done..].
Qed.

(** ** The scan and the specification's sections *)

Lemma seq_from document i :
  i < lineCount document ->
  seq i (lineCount document - i) = i :: seq (S i) (lineCount document - S i).
Proof.
  intros Hi. replace (lineCount document - i) with (S (lineCount document - S i)) by lia.
  done.
Qed.

Lemma filter_heads_skip document (f : nat -> bool) i j :
  i ≤ j -> j ≤ lineCount document ->
  (forall k, i ≤ k -> k < j -> f k = false) ->
  List.filter f (seq i (lineCount document - i))
  = List.filter f (seq j (lineCount document - j)).
Proof.
  intros Hij Hjn. remember (j - i) as d eqn:Hd. revert i Hij Hd.
  induction d as [|d IH]; intros i Hij Hd Hf.
  - by replace j with i by lia.
  - rewrite seq_from by lia. simpl. rewrite Hf by lia.
    apply IH; [lia..|]. intros k ? ?. apply Hf; lia.
Qed.

(** A single blank line never splits: text that follows text directly,
    or after exactly one blank line, does not begin a section. *)
Lemma single_blank_never_splits document i :
  (1 ≤ i ∧ isTextAt document (i - 1) = true)
  ∨ (2 ≤ i ∧ isBlankAt document (i - 1) = true
     ∧ isTextAt document (i - 2) = true) ->
  specSectionHead document i = false.
Proof.
  intros Hprev. unfold specSectionHead.
  apply andb_false_iff. right. apply orb_false_iff. split.
  - apply not_true_iff_false. intros Hall. rewrite forallb_forall in Hall.
    destruct Hprev as [[Hi Ht]|(Hi & _ & Ht)];
      apply isTextAt_not_blank in Ht;
      rewrite Hall in Ht by (apply in_seq; lia); done.
  - destruct Hprev as [[Hi Ht]|(Hi & _ & Ht)]; apply isTextAt_not_blank in Ht;
      rewrite Ht; by rewrite ?andb_false_r.
Qed.

(** A gap of two blank lines splits: text after it begins a section. *)
Lemma double_blank_splits document i :
  2 ≤ i -> isBlankAt document (i - 1) = true ->
  isBlankAt document (i - 2) = true -> isTextAt document i = true ->
  specSectionHead document i = true.
Proof.
  intros Hi Hb1 Hb2 Ht. unfold specSectionHead.
  rewrite Ht, Hb1, Hb2, !andb_true_r. cbn [andb].
  apply orb_true_iff. right. by apply Nat.leb_le.
Qed.

Lemma specSectionHead_blank document i :
  isBlankAt document i = true -> specSectionHead document i = false.
Proof.
  intros Hb. unfold specSectionHead.
  destruct (isTextAt document i) eqn:Ht; [|done].
  apply isTextAt_not_blank in Ht. congruence.
Qed.

Lemma specSectionHead_first document i :
  loopInv document i None -> isTextAt document i = true ->
  specSectionHead document i = true.
Proof.
  intros (_ & Hinv) Ht. unfold specSectionHead. rewrite Ht. cbn [andb].
  apply orb_true_iff. destruct Hinv as [Hall|(H2 & Hb1 & Hb2)].
  - left. apply forallb_forall. intros j [_ Hj]%in_seq. apply Hall. lia.
  - right. rewrite Hb1, Hb2, !andb_true_r. by apply Nat.leb_le.
Qed.

Lemma specSectionHead_inside document i s :
  loopInv document i (Some s) -> specSectionHead document i = false.
Proof.
  intros (_ & Hs & Hts & Hprev). unfold specSectionHead.
  apply andb_false_iff. right. apply orb_false_iff. split.
  - apply not_true_iff_false. intros Hall.
    rewrite forallb_forall in Hall.
    assert (isBlankAt document s = true) as Hb by (apply Hall, in_seq; lia).
    apply isTextAt_not_blank in Hts. congruence.
  - destruct (isBlankAt document (i - 1)) eqn:Hb1; [|by rewrite andb_false_r].
    destruct (Hprev eq_refl) as (_ & Ht2 & _).
    apply isTextAt_not_blank in Ht2. rewrite Ht2. by rewrite andb_false_r.
Qed.

Lemma sectionsFrom_starts document i st :
  loopInv document i st ->
  start <$> sectionsFrom document i st
  = Z.of_nat <$> (option_list st
                  ++ List.filter (specSectionHead document)
                       (seq i (lineCount document - i))).
Proof.
  revert i st.
  apply (sections_ind document (fun i st r =>
    start <$> r
    = Z.of_nat <$> (option_list st
                    ++ List.filter (specSectionHead document)
                         (seq i (lineCount document - i))))).
  - intros i st _ ->. rewrite Nat.sub_diag. simpl. rewrite app_nil_r.
    by destruct st.
  - intros i r Hinv Ht ->. rewrite (seq_from document i (isTextAt_lt _ _ Ht)).
    simpl. by rewrite (specSectionHead_first _ _ Hinv Ht).
  - intros i s r Hinv Ht ->. rewrite (seq_from document i (isTextAt_lt _ _ Ht)).
    simpl. by rewrite (specSectionHead_inside _ _ _ Hinv).
  - intros i r Hinv Hb ->. rewrite (seq_from document i (isBlankAt_lt _ _ Hb)).
    simpl. by rewrite (specSectionHead_blank _ _ Hb).
  - intros i s j r Hinv Hb -> Hj Hjn _ Hr.
    rewrite fmap_cons, Hr. simpl. f_equal. f_equal.
    symmetry. apply filter_heads_skip; [lia|done|].
    intros k Hk1 Hk2. apply specSectionHead_blank.
    by apply (blankEnd_blank document i).
  - intros i s r Hinv Hb _ ->. rewrite (seq_from document i (isBlankAt_lt _ _ Hb)).
    simpl. by rewrite (specSectionHead_blank _ _ Hb).
Qed.

(** The sections the code finds start exactly where the specification's
    sections begin. *)
Lemma findSections_starts document :
  start <$> findSections document = Z.of_nat <$> specSectionHeads document.
Proof.
  rewrite findSections_from, (sectionsFrom_starts _ _ _ (loopInv_start document)).
  unfold specSectionHeads. by rewrite Nat.sub_0_r.
Qed.

Lemma findSections_length document :
  length (findSections document) = specSectionCount document.
Proof.
  unfold specSectionCount.
  rewrite <- (length_fmap start), findSections_starts. apply length_fmap.
Qed.

Lemma findSections_good document :
  Forall (goodSection document) (findSections document).
Proof. rewrite findSections_from. apply sectionsFrom_good, loopInv_start. Qed.

Lemma findSections_ordered document : ordered 0 (findSections document).
Proof.
  rewrite findSections_from.
  apply (sectionsFrom_ordered document 0 None), loopInv_start.
Qed.

(** ** Dispatch on the kind of document *)

Lemma hasRunner_string (lang : string) :
  hasRunner lang = true
  <-> is_Some (RUNNERS !! lang) ∨ lang ∈ objectPrototypeNames.
Proof.
  unfold hasRunner. by rewrite orb_true_iff, !bool_decide_eq_true.
Qed.

Lemma hasRunner_own (lang : string) :
  is_Some (RUNNERS !! lang) -> hasRunner lang = true.
Proof. intros H. apply hasRunner_string. by left. Qed.

Lemma hasRunner_None (lang : string) :
  RUNNERS !! lang = None -> lang ∉ objectPrototypeNames ->
  hasRunner lang = false.
Proof.
  intros Hnone Hproto. apply not_true_iff_false.
  intros [[r Hr]|Hin]%hasRunner_string; [congruence|done].
Qed.

Lemma runner_not_markdown lang : is_Some (RUNNERS !! lang) -> lang ≠ "markdown".
Proof. intros [r Hr] ->. vm_compute in Hr. discriminate. Qed.

Lemma findCodeBlocks_markdown document :
  languageId document = "markdown" ->
  findCodeBlocks document = findMarkdownBlocks document.
Proof. intros H. unfold findCodeBlocks. by rewrite bool_decide_eq_true_2. Qed.

Lemma findCodeBlocks_plain document :
  languageId document ≠ "markdown" ->
  findCodeBlocks document = findSourceBlocks document.
Proof. intros H. unfold findCodeBlocks. by rewrite bool_decide_eq_false_2. Qed.

Lemma findSourceBlocks_supported document :
  is_Some (RUNNERS !! languageId document) ->
  findSourceBlocks document
  = wholeFileBlock document
    :: (if 1 <? length (findSections document)
        then sectionBlock document <$> findSections document else []).
Proof.
  intros H%hasRunner_own. unfold findSourceBlocks. by rewrite H.
Qed.

(** ** Markdown documents: the claims *)

(** C1 (as the code has it).  In a markdown document, take an opening
    fence on line [k] that the scan meets outside any fence and that no
    later line closes (no later line begins with three backticks).  The
    fence is closed by the end of the document: the scan pushes, after
    the blocks of the earlier fences, one block anchored at [k] whose
    content runs from line [k + 1] to the last line, provided there is a
    line after [k] and the language has a runner; otherwise it pushes
    nothing for the fence. *)
Theorem unterminated_fence_runs_to_end document k ln :
  languageId document = "markdown" ->
  outerCursor document k ->
  lineAt document k = Some ln ->
  testFence (text ln) = true ->
  (forall j l, k < j -> lineAt document j = Some l ->
               startsWithFence (text l) = false) ->
  exists pre,
    Forall (fun b => (lensLine b < Z.of_nat k)%Z) pre
    ∧ findCodeBlocks document
      = pre ++
        (if (S k <? lineCount document)
            && hasRunner (normalizeLangId
                            (default "shellscript" (detectMarkdownLang (text ln))))
         then [ mkCodeBlock (Z.of_nat k + 1) (Z.of_nat (lineCount document) - 1)
                  (normalizeLangId
                     (default "shellscript" (detectMarkdownLang (text ln))))
                  (join (text <$> drop (S k) (lines document)))
                  (Z.of_nat k) ]
         else []).
Proof.
  intros Hmd Hk Hln Hopen Hno.
  destruct (outerCursor_split _ _ Hk) as (pre & Heq & Hpre).
  exists pre. split; [done|].
  rewrite (findCodeBlocks_markdown _ Hmd), Heq. f_equal.
  pose proof (lineAt_lt _ _ _ Hln) as Hlt.
  rewrite markdownFrom_eq, Hln, Hopen.
  rewrite (markdownFrom_eq _ (S (closingOf document k))).
  rewrite (closingOf_unterminated _ _ Hno Hlt).
  rewrite (proj2 (lineAt_None document (S (lineCount document)))) by lia.
  rewrite app_nil_r. unfold fencePushed.
  rewrite (closingOf_unterminated _ _ Hno Hlt).
  replace (Z.of_nat k + 1)%Z with (Z.of_nat (S k)) by lia.
  rewrite textsBetween_to_end.
  replace (Z.of_nat (S k) <=? Z.of_nat (lineCount document) - 1)%Z
    with (S k <? lineCount document); [done|].
  destruct (Nat.ltb_spec (S k) (lineCount document));
    destruct (Z.leb_spec (Z.of_nat (S k)) (Z.of_nat (lineCount document) - 1));
    (done || lia).
Qed.

(** C1, on a sample: the unterminated fence of [docUnterminated] yields
    its block. *)
Lemma unterminated_fence_runs_to_end_witness :
  exists pre,
    Forall (fun b => (lensLine b < Z.of_nat 0)%Z) pre
    ∧ findCodeBlocks docUnterminated
      = pre ++
        (if (1 <? lineCount docUnterminated)
            && hasRunner (normalizeLangId
                            (default "shellscript"
                               (detectMarkdownLang (text (lineOf "```python")))))
         then [ mkCodeBlock (Z.of_nat 0 + 1) (Z.of_nat (lineCount docUnterminated) - 1)
                  (normalizeLangId
                     (default "shellscript"
                        (detectMarkdownLang (text (lineOf "```python")))))
                  (join (text <$> drop 1 (lines docUnterminated)))
                  (Z.of_nat 0) ]
         else []).
Proof.
  apply (unterminated_fence_runs_to_end docUnterminated 0 (lineOf "```python")).
  - reflexivity.
  - constructor.
  - reflexivity.
  - reflexivity.
  - intros j l Hj Hl. destruct j as [|[|j]]; [lia| |discriminate Hl].
    injection Hl as <-. reflexivity.
Defined.

(** C1, the stated claim fails: line 0 of [docUnterminated] opens a
    fence, the only later line does not begin with three backticks, and
    the detection still emits a block for that fence. *)
Lemma unterminated_fence_counterexample :
  testFence "```python" = true
  ∧ startsWithFence "print(1)" = false
  ∧ lines docUnterminated = [lineOf "```python"; lineOf "print(1)"]
  ∧ findCodeBlocks docUnterminated = [ mkCodeBlock 1 1 "python" "print(1)" 0 ].
Proof. repeat split; vm_compute; reflexivity. Qed.

(** C2 (as the code has it).  In the markdown document with lines
    three backticks, [echo hi], three backticks, no line opens a fence:
    the opening test needs at least one word character after the
    backticks, so the detection emits no block although [shellscript] has
    a runner.  The default tag [shellscript] is never taken: every line
    that passes the opening test carries a tag. *)
Theorem bare_fence_opens_no_block :
  findCodeBlocks docBareFence = []
  ∧ is_Some (RUNNERS !! "shellscript")
  ∧ (forall rest, wordRun rest = "" -> testFence (fence +:+ rest) = false)
  ∧ (forall lineText, testFence lineText = true ->
       exists tag, detectMarkdownLang lineText = Some tag
                   ∧ default "shellscript" (detectMarkdownLang lineText) = tag).
Proof.
  split; [by vm_compute|]. split; [eexists; by vm_compute|]. split.
  - intros rest Hrest. unfold testFence.
    by rewrite matchFence_fence, Hrest.
  - intros lineText [tag Htag]%testFence_detect. exists tag. by rewrite Htag.
Qed.

(** C2, the stated claim fails: [shellscript] has a runner and the
    detection emits nothing for the document of the untagged fence. *)
Lemma bare_fence_counterexample :
  (text <$> lines docBareFence) = ["```"; "echo hi"; "```"]
  ∧ languageId docBareFence = "markdown"
  ∧ hasRunner "shellscript" = true
  ∧ findCodeBlocks docBareFence = [].
Proof. repeat split; vm_compute; reflexivity. Qed.

(** C9.  In a markdown document the emitted blocks are strictly ordered
    and pairwise disjoint: a block ends before the anchor of the block
    that follows it; hence, for any two blocks, the earlier one has the
    smaller start line and no line lies between anchor and end of
    both. *)
Theorem markdown_blocks_ordered_disjoint document :
  languageId document = "markdown" ->
  (forall k b1 b2,
     findCodeBlocks document !! k = Some b1 ->
     findCodeBlocks document !! S k = Some b2 ->
     (endLine b1 < lensLine b2)%Z)
  ∧ (forall j k b1 b2, j < k ->
       findCodeBlocks document !! j = Some b1 ->
       findCodeBlocks document !! k = Some b2 ->
       (startLine b1 < startLine b2)%Z
       ∧ forall l : Z,
           ~ ((lensLine b1 ≤ l ≤ endLine b1)%Z ∧ (lensLine b2 ≤ l ≤ endLine b2)%Z)).
Proof.
  intros Hmd. rewrite (findCodeBlocks_markdown _ Hmd), findMarkdownBlocks_from.
  pose proof (markdownFrom_chained document 0) as Hch.
  split.
  - intros k b1 b2 H1 H2.
    pose proof (chained_later _ _ _ k (S k) _ _ Hch (Nat.lt_succ_diag_r k) H1 H2).
    lia.
  - intros j k b1 b2 Hjk H1 H2.
    pose proof (chained_later _ _ _ j k _ _ Hch Hjk H1 H2) as Hlater.
    pose proof (chained_elem _ _ _ _ Hch (list_elem_of_lookup_2 _ _ _ H1)).
    pose proof (chained_elem _ _ _ _ Hch (list_elem_of_lookup_2 _ _ _ H2)).
    split; [lia|]. intros l. lia.
Qed.

(** C9, on a sample: the two blocks of [docTwoFences]. *)
Lemma markdown_blocks_ordered_disjoint_witness :
  findCodeBlocks docTwoFences
  = [ mkCodeBlock 1 1 "python" "print(1)" 0; mkCodeBlock 5 5 "shellscript" "ls" 4 ]
  ∧ (forall k b1 b2,
       findCodeBlocks docTwoFences !! k = Some b1 ->
       findCodeBlocks docTwoFences !! S k = Some b2 ->
       (endLine b1 < lensLine b2)%Z)
  ∧ (forall j k b1 b2, j < k ->
       findCodeBlocks docTwoFences !! j = Some b1 ->
       findCodeBlocks docTwoFences !! k = Some b2 ->
       (startLine b1 < startLine b2)%Z
       ∧ forall l : Z,
           ~ ((lensLine b1 ≤ l ≤ endLine b1)%Z ∧ (lensLine b2 ≤ l ≤ endLine b2)%Z)).
Proof.
  split; [by vm_compute|].
  apply (markdown_blocks_ordered_disjoint docTwoFences). reflexivity.
Defined.

(** ** The language resolver: the claims *)

(** C4 (as the code has it).  [normalizeLangId] is total and does not
    fold case.  It looks its input up as given: each of the ten aliases
    gives its entry of the alias table, and any other string that is
    not the name of a property inherited from [Object.prototype] is
    returned unchanged, the empty string too.  The case is folded where
    the tag is extracted: [detectMarkdownLang] returns the run of word
    characters after the backticks in lower case, so a tag that reaches
    [normalizeLangId] is already in lower case, and a fence line
    resolves to the same language as the line with its tag in lower
    case. *)
Theorem normalizeLangId_after_case_folding :
  normalizeLangId
    <$> ["js"; "ts"; "py"; "sh"; "bash"; "zsh"; "rb"; "rs"; "c++"; "cxx"]
  = LangString
      <$> ["javascript"; "typescript"; "python"; "shellscript"; "shellscript";
           "shellscript"; "ruby"; "rust"; "cpp"; "cpp"]
  ∧ (forall lang : string,
       lang ∉ ["js"; "ts"; "py"; "sh"; "bash"; "zsh"; "rb"; "rs"; "c++"; "cxx"] ->
       lang ∉ objectPrototypeNames ->
       normalizeLangId lang = lang)
  ∧ normalizeLangId "" = ""
  ∧ (forall line tag, detectMarkdownLang line = Some tag ->
       toLowerCase tag = tag ∧ tag ≠ ""
       ∧ exists rest, line = fence +:+ rest ∧ tag = toLowerCase (wordRun rest))
  ∧ (forall rawTag rest,
       wordRun (rawTag +:+ rest) = rawTag -> rawTag ≠ "" ->
       detectMarkdownLang (fence +:+ rawTag +:+ rest) = Some (toLowerCase rawTag)
       ∧ normalizeLangId <$> detectMarkdownLang (fence +:+ rawTag +:+ rest)
         = normalizeLangId <$> detectMarkdownLang (fence +:+ toLowerCase rawTag +:+ rest)).
Proof.
  split; [by vm_compute|]. split; [|split; [by vm_compute|split]].
  - intros lang Halias Hproto. unfold normalizeLangId.
    assert (aliases !! lang = None) as ->
      by (by apply not_elem_of_list_to_map_1).
    by rewrite bool_decide_eq_false_2.
  - intros line tag. unfold detectMarkdownLang, matchFence.
    destruct (afterFence line) as [r|] eqn:Hr; [|done].
    apply afterFence_Some in Hr as ->.
    destruct (wordRun r) as [|c w] eqn:Hw; [done|].
    intros [= <-]. split; [apply (toLowerCase_idem (String c w))|]. split; [done|].
    exists r. by rewrite Hw.
  - intros rawTag rest Hrun Hne.
    assert (forall t, wordRun (t +:+ rest) = t -> t ≠ "" ->
              detectMarkdownLang (fence +:+ t +:+ rest) = Some (toLowerCase t)) as Hdet.
    { intros t Ht Hnt. unfold detectMarkdownLang.
      change (fence +:+ t +:+ rest) with (fence +:+ (t +:+ rest)).
      rewrite matchFence_fence, Ht. by case_decide. }
    split; [by apply Hdet|].
    rewrite (Hdet rawTag Hrun Hne), Hdet.
    + by rewrite toLowerCase_idem.
    + clear Hdet Hne. revert Hrun. induction rawTag as [|c t IH]; simpl.
      * done.
      * rewrite isWordChar_lowerChar. destruct (isWordChar c); [|done].
        intros [= Ht]. by rewrite (IH Ht).
    + by intros ->%toLowerCase_empty.
Qed.

(** C4, on a sample: a fence tagged [PY] resolves as the fence tagged
    [py] does. *)
Lemma normalizeLangId_after_case_folding_witness :
  normalizeLangId <$> detectMarkdownLang "```py" = Some (LangString "python")
  ∧ normalizeLangId <$> detectMarkdownLang (fence +:+ "PY" +:+ "")
    = normalizeLangId <$> detectMarkdownLang (fence +:+ toLowerCase "PY" +:+ "").
Proof.
  split; [by vm_compute|].
  apply (proj2 (proj2 (proj2 (proj2 normalizeLangId_after_case_folding))) "PY" "").
  - reflexivity.
  - discriminate.
Defined.

(** C4, the stated claim fails: applied to a tag in capitals
    [normalizeLangId] neither folds the case nor finds the alias, and its
    result differs from its result on the tag in lower case. *)
Lemma normalizeLangId_counterexample :
  toLowerCase "PY" = "py"
  ∧ normalizeLangId "PY" = "PY"
  ∧ normalizeLangId (toLowerCase "PY") = "python"
  ∧ normalizeLangId "PY" ≠ normalizeLangId (toLowerCase "PY").
Proof. repeat split; by vm_compute. Qed.

(** ** Source documents: the claims *)

Lemma section_blocks_of document b :
  is_Some (RUNNERS !! languageId document) ->
  b ∈ tail (findCodeBlocks document) ->
  exists sec, sec ∈ findSections document ∧ b = sectionBlock document sec.
Proof.
  intros Hrun. rewrite (findCodeBlocks_plain _ (runner_not_markdown _ Hrun)).
  rewrite (findSourceBlocks_supported _ Hrun). simpl.
  destruct (1 <? length (findSections document)).
  - intros (sec & -> & Hsec)%list_elem_of_fmap. eauto.
  - by intros ?%elem_of_nil.
Qed.

(** C3 (as the code has it).  In a source document whose language has a
    runner, every section block starts on a non-blank line, so none of
    its lines precedes the first non-blank line of the document.  It ends
    on a non-blank line, except that a section still open at the end of
    the document is closed at the last line: when that line is blank it
    is the only blank line after the section's last non-blank line, and
    it is part of the block. *)
Theorem section_block_edges document b :
  is_Some (RUNNERS !! languageId document) ->
  b ∈ tail (findCodeBlocks document) ->
  exists s e,
    startLine b = Z.of_nat s ∧ endLine b = Z.of_nat e
    ∧ s ≤ e ∧ e < lineCount document
    ∧ isTextAt document s = true
    ∧ (isTextAt document e = true
       ∨ (S e = lineCount document ∧ s < e
          ∧ isBlankAt document e = true ∧ isTextAt document (e - 1) = true))
    ∧ (forall l, s ≤ l -> exists j, j ≤ l ∧ isTextAt document j = true)
    ∧ (forall l, s ≤ l -> l ≤ e ->
         (exists j, l ≤ j ∧ isTextAt document j = true)
         ∨ (l = e ∧ S e = lineCount document ∧ isBlankAt document e = true)).
Proof.
  intros Hrun Hb.
  destruct (section_blocks_of _ _ Hrun Hb) as (sec & Hsec & ->).
  pose proof (findSections_good document) as Hgood.
  rewrite Forall_forall in Hgood.
  destruct (Hgood _ Hsec) as (s & e & Hs & He & Hse & Hen & Hts & Hend).
  exists s, e. simpl. repeat split; try done.
  - intros l Hl. exists s. done.
  - intros l Hl1 Hl2. destruct Hend as [Hte|(Hlast & Hlt & Hbe & Hprev)].
    + left. by exists e.
    + destruct (decide (l = e)) as [->|Hne]; [by right|].
      left. exists (e - 1). split; [lia|done].
Qed.

(** C3, on a sample: the last section block of [docTrailingBlank]. *)
Lemma section_block_edges_witness :
  exists s e,
    startLine (mkCodeBlock 3 4 "python" ("b" +:+ newline) 3) = Z.of_nat s
    ∧ endLine (mkCodeBlock 3 4 "python" ("b" +:+ newline) 3) = Z.of_nat e
    ∧ s ≤ e ∧ e < lineCount docTrailingBlank
    ∧ isTextAt docTrailingBlank s = true
    ∧ (isTextAt docTrailingBlank e = true
       ∨ (S e = lineCount docTrailingBlank ∧ s < e
          ∧ isBlankAt docTrailingBlank e = true
          ∧ isTextAt docTrailingBlank (e - 1) = true))
    ∧ (forall l, s ≤ l -> exists j, j ≤ l ∧ isTextAt docTrailingBlank j = true)
    ∧ (forall l, s ≤ l -> l ≤ e ->
         (exists j, l ≤ j ∧ isTextAt docTrailingBlank j = true)
         ∨ (l = e ∧ S e = lineCount docTrailingBlank
            ∧ isBlankAt docTrailingBlank e = true)).
Proof.
  apply (section_block_edges docTrailingBlank).
  - eexists. vm_compute. reflexivity.
  - vm_compute. apply list_elem_of_further, list_elem_of_here.
Defined.

(** C3, the stated claim fails: the last section block of
    [docTrailingBlank] ends on line 4, which is blank and lies after the
    last non-blank line of the document (line 3). *)
Lemma section_block_counterexample :
  hasRunner (languageId docTrailingBlank) = true
  ∧ findCodeBlocks docTrailingBlank !! 2
    = Some (mkCodeBlock 3 4 "python" ("b" +:+ newline) 3)
  ∧ isTextAt docTrailingBlank 3 = true
  ∧ isBlankAt docTrailingBlank 4 = true
  ∧ lineCount docTrailingBlank = 5.
Proof. repeat split; by vm_compute. Qed.

(** C5.  In a document with at least one line, markdown or source, every
    detected block satisfies
    [0 <= startLine <= endLine <= lineCount - 1] and
    [lensLine <= startLine]. *)
Theorem block_bounds document b :
  1 ≤ lineCount document ->
  b ∈ findCodeBlocks document ->
  (0 ≤ startLine b)%Z ∧ (startLine b ≤ endLine b)%Z
  ∧ (endLine b ≤ Z.of_nat (lineCount document) - 1)%Z
  ∧ (lensLine b ≤ startLine b)%Z.
Proof.
  intros Hn. unfold findCodeBlocks. case_bool_decide as Hmd.
  - rewrite findMarkdownBlocks_from. intros Hb.
    pose proof (chained_elem _ _ _ _ (markdownFrom_chained document 0) Hb). lia.
  - unfold findSourceBlocks.
    destruct (hasRunner (languageId document)); simpl; [|by intros ?%elem_of_nil].
    intros [->|Hb]%elem_of_cons; [simpl; lia|].
    destruct (1 <? length (findSections document)); [|by apply elem_of_nil in Hb].
    apply list_elem_of_fmap in Hb as (sec & -> & Hsec).
    pose proof (findSections_good document) as Hgood.
    rewrite Forall_forall in Hgood.
    destruct (Hgood _ Hsec) as (s & e & Hs & He & Hse & Hen & _).
    simpl. lia.
Qed.

(** C5, on a sample: the block of [docFenced]. *)
Lemma block_bounds_witness :
  (0 ≤ startLine (mkCodeBlock 1 2 "python" ("print(1)" +:+ newline +:+ "print(2)") 0))%Z
  ∧ (startLine (mkCodeBlock 1 2 "python" ("print(1)" +:+ newline +:+ "print(2)") 0)
     ≤ endLine (mkCodeBlock 1 2 "python" ("print(1)" +:+ newline +:+ "print(2)") 0))%Z
  ∧ (endLine (mkCodeBlock 1 2 "python" ("print(1)" +:+ newline +:+ "print(2)") 0)
     ≤ Z.of_nat (lineCount docFenced) - 1)%Z
  ∧ (lensLine (mkCodeBlock 1 2 "python" ("print(1)" +:+ newline +:+ "print(2)") 0)
     ≤ startLine (mkCodeBlock 1 2 "python" ("print(1)" +:+ newline +:+ "print(2)") 0))%Z.
Proof.
  apply (block_bounds docFenced).
  - vm_compute. lia.
  - vm_compute. apply list_elem_of_here.
Defined.

(** C6.  For a source document whose language identifier is a key of the
    runner table, the detection result is not empty and its first
    element is the whole-file block: [startLine = 0],
    [endLine = lineCount - 1], [lensLine = 0], and as code the texts of
    all the lines of the document with one newline character between
    two of them; so also for a document that is one empty line, whose
    code is the empty string. *)
Theorem whole_file_block_first document :
  is_Some (RUNNERS !! languageId document) ->
  exists rest,
    findCodeBlocks document
    = mkCodeBlock 0 (Z.of_nat (lineCount document) - 1) (languageId document)
        (String.concat (String "010"%char EmptyString) (text <$> lines document)) 0
      :: rest.
Proof.
  intros Hrun. rewrite (findCodeBlocks_plain _ (runner_not_markdown _ Hrun)).
  rewrite (findSourceBlocks_supported _ Hrun). eauto.
Qed.

(** C6, on samples: the document that is one empty line, and a document
    of three lines, whose code has its two newline characters. *)
Lemma whole_file_block_first_witness :
  findCodeBlocks docEmptyLine = [ mkCodeBlock 0 0 "python" "" 0 ]
  ∧ findCodeBlocks docSingleBlank
    = [ mkCodeBlock 0 2 "python"
          (String "a" (String "010" (String "010" (String "b" EmptyString)))) 0 ]
  ∧ exists rest,
      findCodeBlocks docSingleBlank
      = mkCodeBlock 0 (Z.of_nat (lineCount docSingleBlank) - 1)
          (languageId docSingleBlank)
          (String.concat (String "010"%char EmptyString)
             (text <$> lines docSingleBlank)) 0
        :: rest.
Proof.
  split; [by vm_compute|]. split; [by vm_compute|].
  apply (whole_file_block_first docSingleBlank).
  eexists. vm_compute. reflexivity.
Defined.

(** A source document whose language identifier names neither a runner
    nor a property inherited from [Object.prototype] yields no block. *)
Lemma unsupported_language_no_blocks document :
  languageId document ≠ "markdown" ->
  RUNNERS !! languageId document = None ->
  languageId document ∉ objectPrototypeNames ->
  findCodeBlocks document = [].
Proof.
  intros Hplain Hnone Hproto.
  rewrite (findCodeBlocks_plain _ Hplain). unfold findSourceBlocks.
  by rewrite (hasRunner_None _ Hnone Hproto).
Qed.

(** C8 (where the code departs from it).  The guard at the entry of
    [findSourceBlocks] tests [RUNNERS[languageId]] for truthiness, and
    the lookup also finds what [RUNNERS] inherits from
    [Object.prototype]: [constructor] is not a key of the runner table,
    and a source document in a language of that name still gets its
    whole-file block. *)
Theorem inherited_name_passes_runner_guard :
  RUNNERS !! "constructor" = None
  ∧ ("constructor" ∉ runnerKeys)
  ∧ languageId (docOf "constructor" ["x"]) ≠ "markdown"
  ∧ findCodeBlocks (docOf "constructor" ["x"])
    = [ mkCodeBlock 0 0 "constructor" "x" 0 ].
Proof.
  split; [by vm_compute|]. split; [|split; [by vm_compute|by vm_compute]].
  unfold runnerKeys. intros Hin.
  repeat (apply elem_of_cons in Hin as [Hin|Hin]; [discriminate Hin|]).
  by apply elem_of_nil in Hin.
Qed.

(** C7.  For a source document whose language has a runner, the result
    is the whole-file block followed by the section blocks, and there
    are section blocks exactly when the document has two or more
    sections (text split only by gaps of two or more blank lines).  When
    present they come in document order: they start where the sections
    begin, each ends before the next one starts, and each is anchored at
    its first line and carries the text of its lines. *)
Theorem section_blocks_iff_two_sections document :
  is_Some (RUNNERS !! languageId document) ->
  exists secs,
    findCodeBlocks document = wholeFileBlock document :: secs
    ∧ (secs ≠ [] <-> 2 ≤ specSectionCount document)
    ∧ (2 ≤ specSectionCount document ->
       startLine <$> secs = Z.of_nat <$> specSectionHeads document)
    ∧ (forall j k b1 b2, j < k ->
         secs !! j = Some b1 -> secs !! k = Some b2 ->
         (endLine b1 < startLine b2)%Z)
    ∧ (forall b, b ∈ secs ->
         lensLine b = startLine b
         ∧ blockLanguageId b = languageId document
         ∧ code b = join (textsBetween document (startLine b) (endLine b))).
Proof.
  intros Hrun. rewrite (findCodeBlocks_plain _ (runner_not_markdown _ Hrun)).
  rewrite (findSourceBlocks_supported _ Hrun).
  eexists. split; [done|].
  rewrite <- (findSections_length document), <- findSections_starts.
  destruct (Nat.ltb_spec 1 (length (findSections document))) as [Hlt|Hle].
  - split; [|split; [|split]].
    + split; [lia|]. intros _ Hnil.
      apply (f_equal length) in Hnil. rewrite length_fmap in Hnil.
      simpl in Hnil. lia.
    + intros _. rewrite <- list_fmap_compose. done.
    + intros j k b1 b2 Hjk H1 H2.
      apply list_lookup_fmap_Some in H1 as (s1 & -> & H1).
      apply list_lookup_fmap_Some in H2 as (s2 & -> & H2).
      simpl. apply (ordered_later _ _ j k _ _ (findSections_ordered document)); done.
    + by intros b (sec & -> & _)%list_elem_of_fmap.
  - split; [|split; [|split]].
    + split; [done|lia].
    + lia.
    + intros j k b1 b2 _ H1. done.
    + by intros b ?%elem_of_nil.
Qed.

(** C7, on a sample: the two sections of [docDoubleBlank]. *)
Lemma section_blocks_iff_two_sections_witness :
  specSectionCount docDoubleBlank = 2
  ∧ exists secs,
      findCodeBlocks docDoubleBlank = wholeFileBlock docDoubleBlank :: secs
      ∧ (secs ≠ [] <-> 2 ≤ specSectionCount docDoubleBlank)
      ∧ (2 ≤ specSectionCount docDoubleBlank ->
         startLine <$> secs = Z.of_nat <$> specSectionHeads docDoubleBlank)
      ∧ (forall j k b1 b2, j < k ->
           secs !! j = Some b1 -> secs !! k = Some b2 ->
           (endLine b1 < startLine b2)%Z)
      ∧ (forall b, b ∈ secs ->
           lensLine b = startLine b
           ∧ blockLanguageId b = languageId docDoubleBlank
           ∧ code b = join (textsBetween docDoubleBlank (startLine b) (endLine b))).
Proof.
  split; [by vm_compute|].
  apply (section_blocks_iff_two_sections docDoubleBlank).
  eexists. vm_compute. reflexivity.
Defined.

(** C10.  For a source document whose language identifier is a key of
    the runner table, the result never has exactly two blocks: it has
    one block when the document has no section or one section, and one
    block more than it has sections when it has two or more. *)
Theorem block_count_never_two document :
  is_Some (RUNNERS !! languageId document) ->
  length (findCodeBlocks document) ≠ 2
  ∧ (specSectionCount document ≤ 1 -> length (findCodeBlocks document) = 1)
  ∧ (2 ≤ specSectionCount document ->
     length (findCodeBlocks document) = 1 + specSectionCount document).
Proof.
  intros Hrun. rewrite (findCodeBlocks_plain _ (runner_not_markdown _ Hrun)).
  rewrite (findSourceBlocks_supported _ Hrun).
  rewrite <- (findSections_length document). simpl.
  destruct (Nat.ltb_spec 1 (length (findSections document))) as [Hlt|Hle].
  - rewrite length_fmap. lia.
  - simpl. lia.
Qed.

(** C10, on samples: one block for a single section, three blocks for
    two sections. *)
Lemma block_count_never_two_witness :
  length (findCodeBlocks docSingleBlank) = 1
  ∧ length (findCodeBlocks docDoubleBlank) = 3
  ∧ length (findCodeBlocks docDoubleBlank) ≠ 2
  ∧ (specSectionCount docDoubleBlank ≤ 1 -> length (findCodeBlocks docDoubleBlank) = 1)
  ∧ (2 ≤ specSectionCount docDoubleBlank ->
     length (findCodeBlocks docDoubleBlank) = 1 + specSectionCount docDoubleBlank).
Proof.
  split; [by vm_compute|]. split; [by vm_compute|].
  apply (block_count_never_two docDoubleBlank).
  eexists. vm_compute. reflexivity.
Defined.

(** ** The scenarios of the specification *)

Example scenario_alias :
  normalizeLangId <$> detectMarkdownLang "```py" = Some (LangString "python").
Proof. by vm_compute. Qed.

Example scenario_alias_capitals :
  normalizeLangId <$> detectMarkdownLang "```PY" = Some (LangString "python").
Proof. by vm_compute. Qed.

(** The tag stops at the first character outside [\w]. *)
Example scenario_tag_word_characters :
  normalizeLangId <$> detectMarkdownLang "```c++" = Some (LangString "c").
Proof. by vm_compute. Qed.

Example scenario_fenced :
  findCodeBlocks docFenced
  = [ mkCodeBlock 1 2 "python" ("print(1)" +:+ newline +:+ "print(2)") 0 ].
Proof. by vm_compute. Qed.

Example scenario_single_blank :
  findCodeBlocks docSingleBlank
  = [ mkCodeBlock 0 2 "python" ("a" +:+ newline +:+ newline +:+ "b") 0 ].
Proof. by vm_compute. Qed.

Example scenario_double_blank :
  findCodeBlocks docDoubleBlank
  = [ mkCodeBlock 0 3 "python"
        ("a" +:+ newline +:+ newline +:+ newline +:+ "b") 0;
      mkCodeBlock 0 0 "python" "a" 0;
      mkCodeBlock 3 3 "python" "b" 3 ].
Proof. by vm_compute. Qed.

(** * Further properties of the extension *)

(** ** The runner table and the registered languages *)

Lemma runnerKeys_runner lang :
  lang ∈ runnerKeys <-> is_Some (RUNNERS !! lang).
Proof.
  split.
  - assert (Forall (fun l => is_Some (RUNNERS !! l)) runnerKeys) as Hall.
    { unfold runnerKeys. repeat constructor; eexists; vm_compute; reflexivity. }
    rewrite Forall_forall in Hall. apply Hall.
  - intros [r Hr]. unfold RUNNERS in Hr.
    apply elem_of_list_to_map_2 in Hr. unfold runnerKeys.
    repeat (apply elem_of_cons in Hr as [Hr|Hr];
            [injection Hr as -> _; set_solver|]).
    by apply elem_of_nil in Hr.
Qed.

Lemma runner_not_alias lang :
  is_Some (RUNNERS !! lang) -> aliases !! lang = None.
Proof.
  intros Hl%runnerKeys_runner. unfold runnerKeys in Hl.
  repeat (apply elem_of_cons in Hl as [->|Hl]; [by vm_compute|]).
  by apply elem_of_nil in Hl.
Qed.

Lemma runner_not_inherited lang :
  is_Some (RUNNERS !! lang) -> lang ∉ objectPrototypeNames.
Proof.
  intros Hl%runnerKeys_runner. unfold runnerKeys in Hl.
  repeat (apply elem_of_cons in Hl as [->|Hl];
          [apply (bool_decide_unpack _); by vm_compute|]).
  by apply elem_of_nil in Hl.
Qed.

(** Every alias stands for a language that has a runner. *)
Lemma alias_target_runner lang canonical :
  aliases !! lang = Some canonical -> is_Some (RUNNERS !! canonical).
Proof.
  intros H. unfold aliases in H. apply elem_of_list_to_map_2 in H.
  repeat (apply elem_of_cons in H as [H|H];
          [injection H as _ ->; eexists; by vm_compute|]).
  by apply elem_of_nil in H.
Qed.

(** The runner test succeeds on a resolved language exactly when that
    language is a string that names a runner. *)
Lemma hasRunner_normalizeLangId raw :
  hasRunner (normalizeLangId raw) = true
  <-> exists lang : string,
        normalizeLangId raw = LangString lang ∧ is_Some (RUNNERS !! lang).
Proof.
  unfold normalizeLangId.
  destruct (aliases !! raw) as [canonical|] eqn:Halias.
  - pose proof (alias_target_runner _ _ Halias) as Hrun. split.
    + intros _. by exists canonical.
    + intros _. by apply hasRunner_own.
  - case_bool_decide as Hproto.
    + split; [done|]. by intros (lang & [=] & _).
    + split.
      * intros [Hrun|Hin]%hasRunner_string; [by exists raw|done].
      * intros (lang & [= <-] & Hrun). by apply hasRunner_own.
Qed.

(** ** Markdown documents: where a block comes from *)

Lemma fencePushed_inv document k lineText b :
  b ∈ fencePushed document k lineText ->
  b = mkCodeBlock (Z.of_nat k + 1) (Z.of_nat (closingOf document k) - 1)
        (normalizeLangId (default "shellscript" (detectMarkdownLang lineText)))
        (join (textsBetween document (Z.of_nat k + 1)
                 (Z.of_nat (closingOf document k) - 1)))
        (Z.of_nat k)
  ∧ S k < closingOf document k
  ∧ hasRunner (normalizeLangId (default "shellscript" (detectMarkdownLang lineText)))
    = true.
Proof.
  unfold fencePushed.
  destruct ((Z.of_nat k + 1 <=? Z.of_nat (closingOf document k) - 1)%Z
            && hasRunner _) eqn:Hcond.
  - apply andb_true_iff in Hcond as [Hle%Z.leb_le Hrun].
    intros ->%list_elem_of_singleton. repeat split; [lia|done].
  - by intros ?%elem_of_nil.
Qed.

Lemma fencePushed_intro document k lineText :
  S k < closingOf document k ->
  hasRunner (normalizeLangId (default "shellscript" (detectMarkdownLang lineText)))
  = true ->
  fencePushed document k lineText
  = [ mkCodeBlock (Z.of_nat k + 1) (Z.of_nat (closingOf document k) - 1)
        (normalizeLangId (default "shellscript" (detectMarkdownLang lineText)))
        (join (textsBetween document (Z.of_nat k + 1)
                 (Z.of_nat (closingOf document k) - 1)))
        (Z.of_nat k) ].
Proof.
  intros Hlt Hrun. unfold fencePushed. rewrite Hrun.
  replace (Z.of_nat k + 1 <=? Z.of_nat (closingOf document k) - 1)%Z with true; [done|].
  symmetry. apply Z.leb_le. lia.
Qed.

(** Every block the scan pushes is the block of a fence the scan met
    outside any fence. *)
Lemma markdownFrom_origin document :
  forall i, outerCursor document i ->
  forall b, b ∈ markdownFrom document i ->
  exists k ln, outerCursor document k ∧ lineAt document k = Some ln
               ∧ testFence (text ln) = true
               ∧ b ∈ fencePushed document k (text ln).
Proof.
  apply (cursor_ind (lineCount document)
           (fun i => outerCursor document i ->
                     forall b, b ∈ markdownFrom document i ->
                     exists k ln, outerCursor document k
                                  ∧ lineAt document k = Some ln
                                  ∧ testFence (text ln) = true
                                  ∧ b ∈ fencePushed document k (text ln))).
  intros i IH Hi b. rewrite markdownFrom_eq.
  destruct (lineAt document i) as [ln|] eqn:Hln; [|by intros ?%elem_of_nil].
  pose proof (lineAt_lt _ _ _ Hln) as Hlt.
  pose proof (closingOf_bounds document i Hlt) as Hc.
  destruct (testFence (text ln)) eqn:Ht.
  - intros [Hb|Hb]%elem_of_app.
    + exists i, ln. done.
    + apply (IH (S (closingOf document i))); [lia|done| |done].
      by apply (outer_fence document i ln).
  - intros Hb. apply (IH (S i)); [lia|done| |done].
    by apply (outer_skip document i ln).
Qed.

Lemma findMarkdownBlocks_origin document b :
  b ∈ findMarkdownBlocks document ->
  exists k ln, outerCursor document k ∧ lineAt document k = Some ln
               ∧ testFence (text ln) = true
               ∧ b ∈ fencePushed document k (text ln).
Proof.
  rewrite findMarkdownBlocks_from. apply markdownFrom_origin. constructor.
Qed.

Lemma closingOf_content document k j l :
  k < j -> j < closingOf document k -> lineAt document j = Some l ->
  startsWithFence (text l) = false.
Proof.
  intros Hkj Hjc Hl. unfold closingOf in Hjc.
  apply (findClosing_before (drop (S k) (lines document)) (S k) (j - S k)).
  - rewrite lookup_drop. by replace (S k + (j - S k)) with j by lia.
  - lia.
Qed.

Lemma closingOf_stop document k :
  k < lineCount document ->
  closingOf document k = lineCount document
  ∨ exists l, lineAt document (closingOf document k) = Some l
              ∧ startsWithFence (text l) = true.
Proof.
  intros Hk. unfold closingOf.
  destruct (findClosing_at (drop (S k) (lines document)) (S k)) as [Heq|(l & Hl & Hf)].
  - left. rewrite Heq, length_drop. unfold lineCount in *. lia.
  - right. exists l. split; [|done].
    pose proof (findClosing_bounds (drop (S k) (lines document)) (S k)).
    rewrite lookup_drop in Hl. unfold lineAt.
    by replace (S k + (findClosing (drop (S k) (lines document)) (S k) - S k))
      with (findClosing (drop (S k) (lines document)) (S k)) in Hl by lia.
Qed.

(** The blocks found when the scan is at an opening fence on line [k]:
    those of the earlier fences, what this fence pushes, and those of
    the fences after its closing line. *)
Lemma outerCursor_fence_split document k ln :
  outerCursor document k -> lineAt document k = Some ln ->
  testFence (text ln) = true ->
  exists pre post,
    findMarkdownBlocks document = pre ++ fencePushed document k (text ln) ++ post
    ∧ Forall (fun b => (lensLine b < Z.of_nat k)%Z) pre
    ∧ Forall (fun b => (Z.of_nat (closingOf document k) < lensLine b)%Z) post.
Proof.
  intros Hk Hln Ht.
  destruct (outerCursor_split _ _ Hk) as (pre & Heq & Hpre).
  exists pre, (markdownFrom document (S (closingOf document k))).
  rewrite markdownFrom_eq, Hln, Ht in Heq. split; [done|]. split; [done|].
  apply Forall_forall. intros b Hb.
  pose proof (chained_elem _ _ _ _ (markdownFrom_chained document _) Hb). lia.
Qed.

(** X1.  In a markdown document the language of every detected block is
    a string that is a key of the runner table, hence a canonical
    identifier: not one of the aliases and not the name of a property
    inherited from [Object.prototype].  A fence whose tag is such a
    name yields no block. *)
Theorem detected_language_is_runner_key document b :
  languageId document = "markdown" ->
  b ∈ findCodeBlocks document ->
  exists lang : string,
    blockLanguageId b = LangString lang
    ∧ is_Some (RUNNERS !! lang)
    ∧ aliases !! lang = None
    ∧ lang ∉ objectPrototypeNames.
Proof.
  intros Hmd. rewrite (findCodeBlocks_markdown _ Hmd).
  intros (k & ln & _ & _ & _ & Hb)%findMarkdownBlocks_origin.
  apply fencePushed_inv in Hb as (-> & _ & Hrun).
  apply hasRunner_normalizeLangId in Hrun as (lang & Hlang & Hrun).
  exists lang. simpl. split; [done|]. split; [done|].
  split; [by apply runner_not_alias|by apply runner_not_inherited].
Qed.

(** X1, on a sample: the block of the fence tagged [SH]; and a fence
    tagged [constructor] yields no block. *)
Lemma detected_language_is_runner_key_witness :
  findCodeBlocks (docOf "markdown" ["```constructor"; "x"; "```"]) = []
  ∧ exists lang : string,
      blockLanguageId (mkCodeBlock 5 5 "shellscript" "ls" 4) = LangString lang
      ∧ is_Some (RUNNERS !! lang)
      ∧ aliases !! lang = None
      ∧ lang ∉ objectPrototypeNames.
Proof.
  split; [by vm_compute|].
  apply (detected_language_is_runner_key docTwoFences).
  - reflexivity.
  - vm_compute. apply list_elem_of_further, list_elem_of_here.
Defined.

(** X2.  The shape of a block of a markdown document: its anchor line
    passes the opening test and carries the tag the language is resolved
    from; the content starts on the next line; no content line begins
    with three backticks; the code is the content lines joined; and the
    block ends on the last line of the document or right before a line
    that begins with three backticks. *)
Theorem markdown_block_shape document b :
  languageId document = "markdown" ->
  b ∈ findCodeBlocks document ->
  exists k e ln tag,
    lensLine b = Z.of_nat k ∧ startLine b = Z.of_nat (S k)
    ∧ endLine b = Z.of_nat e ∧ S k ≤ e ∧ e < lineCount document
    ∧ lineAt document k = Some ln
    ∧ testFence (text ln) = true
    ∧ detectMarkdownLang (text ln) = Some tag
    ∧ blockLanguageId b = normalizeLangId tag
    ∧ (forall j l, S k ≤ j -> j ≤ e -> lineAt document j = Some l ->
                   startsWithFence (text l) = false)
    ∧ code b = join (text <$> take (e - k) (drop (S k) (lines document)))
    ∧ (S e = lineCount document
       ∨ exists l, lineAt document (S e) = Some l
                   ∧ startsWithFence (text l) = true).
Proof.
  intros Hmd. rewrite (findCodeBlocks_markdown _ Hmd).
  intros (k & ln & _ & Hln & Ht & Hb)%findMarkdownBlocks_origin.
  apply fencePushed_inv in Hb as (-> & Hlt & Hrun).
  pose proof (lineAt_lt _ _ _ Hln) as Hk.
  pose proof (closingOf_bounds document k Hk) as Hc.
  destruct (testFence_detect _ Ht) as [tag Htag].
  exists k, (closingOf document k - 1), ln, tag. simpl.
  repeat split; try done; try lia.
  - by rewrite Htag.
  - intros j l Hj1 Hj2. apply (closingOf_content document k); lia.
  - unfold textsBetween. do 3 f_equal; [lia|]. f_equal. lia.
  - replace (S (closingOf document k - 1)) with (closingOf document k) by lia.
    apply closingOf_stop. done.
Qed.

(** X2, on a sample: the block of [docFenced]. *)
Lemma markdown_block_shape_witness :
  exists k e ln tag,
    lensLine (mkCodeBlock 1 2 "python" ("print(1)" +:+ newline +:+ "print(2)") 0)
    = Z.of_nat k
    ∧ startLine (mkCodeBlock 1 2 "python" ("print(1)" +:+ newline +:+ "print(2)") 0)
      = Z.of_nat (S k)
    ∧ endLine (mkCodeBlock 1 2 "python" ("print(1)" +:+ newline +:+ "print(2)") 0)
      = Z.of_nat e
    ∧ S k ≤ e ∧ e < lineCount docFenced
    ∧ lineAt docFenced k = Some ln
    ∧ testFence (text ln) = true
    ∧ detectMarkdownLang (text ln) = Some tag
    ∧ blockLanguageId (mkCodeBlock 1 2 "python" ("print(1)" +:+ newline +:+ "print(2)") 0)
      = normalizeLangId tag
    ∧ (forall j l, S k ≤ j -> j ≤ e -> lineAt docFenced j = Some l ->
                   startsWithFence (text l) = false)
    ∧ code (mkCodeBlock 1 2 "python" ("print(1)" +:+ newline +:+ "print(2)") 0)
      = join (text <$> take (e - k) (drop (S k) (lines docFenced)))
    ∧ (S e = lineCount docFenced
       ∨ exists l, lineAt docFenced (S e) = Some l
                   ∧ startsWithFence (text l) = true).
Proof.
  apply (markdown_block_shape docFenced).
  - reflexivity.
  - vm_compute. apply list_elem_of_here.
Defined.

(** X3.  When the scan of a markdown document meets an opening fence on
    line [k] outside any fence, a block anchored at [k] is emitted
    exactly when the line that stops the inner loop is not the very next
    line (the fence has content) and the resolved language has a runner.
    An empty fence and a fence in a language without a runner yield no
    block, and the scan goes on after the closing line. *)
Theorem fence_block_emitted_iff document k ln :
  languageId document = "markdown" ->
  outerCursor document k ->
  lineAt document k = Some ln ->
  testFence (text ln) = true ->
  ((exists b, b ∈ findCodeBlocks document ∧ lensLine b = Z.of_nat k)
   <-> S k < closingOf document k
       ∧ exists lang : string,
           normalizeLangId (default "shellscript" (detectMarkdownLang (text ln)))
           = LangString lang
           ∧ is_Some (RUNNERS !! lang))
  ∧ outerCursor document (S (closingOf document k)).
Proof.
  intros Hmd Hk Hln Ht. split; [|by apply (outer_fence document k ln)].
  rewrite (findCodeBlocks_markdown _ Hmd).
  destruct (outerCursor_fence_split _ _ _ Hk Hln Ht) as (pre & post & -> & Hpre & Hpost).
  rewrite Forall_forall in Hpre. rewrite Forall_forall in Hpost.
  pose proof (closingOf_bounds document k (lineAt_lt _ _ _ Hln)) as Hc.
  rewrite <- hasRunner_normalizeLangId. split.
  - intros (b & Hb & Hlens).
    apply elem_of_app in Hb as [Hb|Hb]; [specialize (Hpre _ Hb); lia|].
    apply elem_of_app in Hb as [Hb|Hb]; [|specialize (Hpost _ Hb); lia].
    by apply fencePushed_inv in Hb as (_ & ? & ?).
  - intros [Hlt Hrun]. rewrite (fencePushed_intro _ _ _ Hlt Hrun).
    eexists (mkCodeBlock _ _ _ _ _). split; [|reflexivity].
    apply elem_of_app. right. apply elem_of_app. left. apply list_elem_of_here.
Qed.

(** X3, on a sample: the empty fence on line 0 of [docEmptyFence] yields
    no block and the fence after it is found. *)
Lemma fence_block_emitted_iff_witness :
  findCodeBlocks docEmptyFence = [ mkCodeBlock 3 3 "shellscript" "ls" 2 ]
  ∧ ((exists b, b ∈ findCodeBlocks docEmptyFence ∧ lensLine b = Z.of_nat 0)
     <-> 1 < closingOf docEmptyFence 0
         ∧ exists lang : string,
             normalizeLangId
               (default "shellscript"
                  (detectMarkdownLang (text (lineOf "```python"))))
             = LangString lang
             ∧ is_Some (RUNNERS !! lang))
  ∧ outerCursor docEmptyFence (S (closingOf docEmptyFence 0)).
Proof.
  split; [by vm_compute|].
  apply (fence_block_emitted_iff docEmptyFence 0 (lineOf "```python")).
  - reflexivity.
  - constructor.
  - reflexivity.
  - reflexivity.
Defined.

(** X4.  In a markdown document no block is anchored inside another
    block or on the line that closes it: a line that begins with three
    backticks right after the content of a fence only closes that fence,
    even when it carries a tag. *)
Theorem no_anchor_up_to_closing_line document b1 b2 :
  languageId document = "markdown" ->
  b1 ∈ findCodeBlocks document ->
  b2 ∈ findCodeBlocks document ->
  ~ ((lensLine b1 < lensLine b2)%Z ∧ (lensLine b2 ≤ endLine b1 + 1)%Z).
Proof.
  intros Hmd. rewrite (findCodeBlocks_markdown _ Hmd), findMarkdownBlocks_from.
  pose proof (markdownFrom_chained document 0) as Hch.
  intros H1 H2.
  pose proof (chained_elem _ _ _ _ Hch H1) as Hb1.
  pose proof (chained_elem _ _ _ _ Hch H2) as Hb2.
  apply list_elem_of_lookup in H1 as [j Hj].
  apply list_elem_of_lookup in H2 as [k Hk].
  destruct (Nat.lt_trichotomy j k) as [Hlt|[->|Hgt]].
  - pose proof (chained_later _ _ _ _ _ _ _ Hch Hlt Hj Hk). lia.
  - rewrite Hj in Hk. injection Hk as ->. lia.
  - pose proof (chained_later _ _ _ _ _ _ _ Hch Hgt Hk Hj). lia.
Qed.

(** A fence closed by a line that carries a tag. *)
Lemma no_anchor_up_to_closing_line_witness :
  findCodeBlocks (docOf "markdown" ["```python"; "x"; "```sh"; "ls"; "```"])
  = [ mkCodeBlock 1 1 "python" "x" 0 ]
  ∧ ~ ((lensLine (mkCodeBlock 1 1 "python" "x" 0)
        < lensLine (mkCodeBlock 1 1 "python" "x" 0))%Z
       ∧ (lensLine (mkCodeBlock 1 1 "python" "x" 0)
          ≤ endLine (mkCodeBlock 1 1 "python" "x" 0) + 1)%Z).
Proof.
  split; [by vm_compute|].
  apply (no_anchor_up_to_closing_line
           (docOf "markdown" ["```python"; "x"; "```sh"; "ls"; "```"])).
  - reflexivity.
  - vm_compute. apply list_elem_of_here.
  - vm_compute. apply list_elem_of_here.
Defined.

Lemma chained_length lo n bs :
  (lo ≤ n + 1)%Z -> chained lo n bs -> (3 * Z.of_nat (length bs) ≤ n - lo + 1)%Z.
Proof.
  revert lo. induction bs as [|b bs IH]; intros lo Hlo; simpl length.
  - intros _. lia.
  - intros [Hb Hrest]. specialize (IH (endLine b + 2)%Z ltac:(lia) Hrest). lia.
Qed.

(** X5.  A markdown document with [n] lines has at most [(n + 1) / 3]
    blocks: every block takes its fence line, at least one content line
    and, unless it ends the document, its closing line. *)
Theorem markdown_block_count_bound document :
  languageId document = "markdown" ->
  3 * length (findCodeBlocks document) ≤ lineCount document + 1.
Proof.
  intros Hmd. rewrite (findCodeBlocks_markdown _ Hmd), findMarkdownBlocks_from.
  assert (Z.of_nat 0 ≤ Z.of_nat (lineCount document) + 1)%Z as Hlo by lia.
  pose proof (chained_length _ _ _ Hlo (markdownFrom_chained document 0)).
  lia.
Qed.

(** X5, on a sample: two lines, one block. *)
Lemma markdown_block_count_bound_witness :
  length (findCodeBlocks docUnterminated) = 1
  ∧ lineCount docUnterminated = 2
  ∧ 3 * length (findCodeBlocks docUnterminated) ≤ lineCount docUnterminated + 1.
Proof.
  split; [by vm_compute|]. split; [by vm_compute|].
  apply (markdown_block_count_bound docUnterminated). reflexivity.
Defined.

(** ** Source documents: what the section blocks hold *)

Lemma section_blocks_tail document :
  is_Some (RUNNERS !! languageId document) ->
  tail (findCodeBlocks document)
  = if 1 <? length (findSections document)
    then sectionBlock document <$> findSections document else [].
Proof.
  intros Hrun. rewrite (findCodeBlocks_plain _ (runner_not_markdown _ Hrun)).
  by rewrite (findSourceBlocks_supported _ Hrun).
Qed.

Lemma sectionsFrom_no_double_blank document i st :
  loopInv document i st ->
  (forall s, st = Some s ->
     forall l, s ≤ l -> S l < i ->
               ~ (isBlankAt document l = true ∧ isBlankAt document (S l) = true)) ->
  Forall (fun sec =>
            forall l : nat, (start sec ≤ Z.of_nat l)%Z -> (Z.of_nat l + 1 ≤ end_ sec)%Z ->
              ~ (isBlankAt document l = true ∧ isBlankAt document (S l) = true))
         (sectionsFrom document i st).
Proof.
  revert i st.
  apply (sections_ind document (fun i st r =>
    (forall s, st = Some s ->
       forall l, s ≤ l -> S l < i ->
                 ~ (isBlankAt document l = true ∧ isBlankAt document (S l) = true)) ->
    Forall (fun sec =>
              forall l : nat, (start sec ≤ Z.of_nat l)%Z -> (Z.of_nat l + 1 ≤ end_ sec)%Z ->
                ~ (isBlankAt document l = true ∧ isBlankAt document (S l) = true))
           r)).
  - intros i [s|] _ -> Hno; simpl; [|constructor].
    constructor; [|constructor]. simpl. intros l Hl1 Hl2.
    apply (Hno s eq_refl); lia.
  - intros i r _ Ht IH _. apply IH. intros s [= <-] l Hl1 Hl2. lia.
  - intros i s r _ Ht IH Hno. apply IH. intros s' [= <-] l Hl1 Hl2.
    destruct (decide (S l = i)) as [<-|Hne].
    + apply isTextAt_not_blank in Ht. intros [_ Hb]. congruence.
    + apply (Hno s eq_refl); lia.
  - intros i r _ _ IH _. apply IH. done.
  - intros i s j r _ _ _ _ _ _ IH Hno. constructor; [|by apply IH].
    simpl. intros l Hl1 Hl2. apply (Hno s eq_refl); lia.
  - intros i s r Hinv Hb _ IH Hno. apply IH. intros s' [= <-] l Hl1 Hl2.
    destruct (decide (S l = i)) as [<-|Hne].
    + pose proof (loopInv_closing_text _ _ _ Hinv Hb) as Hprev.
      replace (S l - 1) with l in Hprev by lia.
      apply isTextAt_not_blank in Hprev. intros [Hbl _]. congruence.
    + apply (Hno s eq_refl); lia.
Qed.

(** X6.  In a source document whose language has a runner, a section
    block never holds two adjacent blank lines: a blank line inside a
    section block has no blank neighbour in the block. *)
Theorem section_block_no_adjacent_blanks document b (l : nat) :
  is_Some (RUNNERS !! languageId document) ->
  b ∈ tail (findCodeBlocks document) ->
  (startLine b ≤ Z.of_nat l)%Z -> (Z.of_nat l + 1 ≤ endLine b)%Z ->
  ~ (isBlankAt document l = true ∧ isBlankAt document (S l) = true).
Proof.
  intros Hrun Hb. rewrite (section_blocks_tail _ Hrun) in Hb.
  destruct (1 <? length (findSections document)); [|by apply elem_of_nil in Hb].
  apply list_elem_of_fmap in Hb as (sec & -> & Hsec). simpl.
  pose proof (sectionsFrom_no_double_blank document 0 None (loopInv_start document))
    as Hall.
  rewrite <- findSections_from, Forall_forall in Hall.
  apply Hall; done.
Qed.

(** Three sections, the middle one with a blank line inside. *)
Lemma section_block_no_adjacent_blanks_witness :
  findCodeBlocks (docOf "python" ["a"; ""; ""; "b"; ""; "c"])
  = [ mkCodeBlock 0 5 "python"
        ("a" +:+ newline +:+ newline +:+ newline +:+ "b" +:+ newline
         +:+ newline +:+ "c") 0;
      mkCodeBlock 0 0 "python" "a" 0;
      mkCodeBlock 3 5 "python" ("b" +:+ newline +:+ newline +:+ "c") 3 ]
  ∧ ~ (isBlankAt (docOf "python" ["a"; ""; ""; "b"; ""; "c"]) 4 = true
       ∧ isBlankAt (docOf "python" ["a"; ""; ""; "b"; ""; "c"]) 5 = true).
Proof.
  split; [by vm_compute|].
  apply (section_block_no_adjacent_blanks
           (docOf "python" ["a"; ""; ""; "b"; ""; "c"])
           (mkCodeBlock 3 5 "python" ("b" +:+ newline +:+ newline +:+ "c") 3) 4).
  - eexists. vm_compute. reflexivity.
  - vm_compute. apply list_elem_of_further, list_elem_of_here.
  - vm_compute. discriminate.
  - vm_compute. discriminate.
Defined.

Lemma sectionsFrom_cover document i st :
  loopInv document i st ->
  forall l, isTextAt document l = true ->
  match st with Some s => s ≤ l | None => i ≤ l end ->
  exists sec, sec ∈ sectionsFrom document i st
              ∧ (start sec ≤ Z.of_nat l)%Z ∧ (Z.of_nat l ≤ end_ sec)%Z.
Proof.
  revert i st.
  apply (sections_ind document (fun i st r =>
    forall l, isTextAt document l = true ->
    match st with Some s => s ≤ l | None => i ≤ l end ->
    exists sec, sec ∈ r ∧ (start sec ≤ Z.of_nat l)%Z ∧ (Z.of_nat l ≤ end_ sec)%Z)).
  - intros i st _ -> l Hl%isTextAt_lt Hst. destruct st as [s|]; [|lia].
    eexists. split; [apply list_elem_of_here|]. simpl. lia.
  - intros i r _ _ IH l Hl Hst. by apply IH.
  - intros i s r _ _ IH l Hl Hst. by apply IH.
  - intros i r _ Hb IH l Hl Hst. apply IH; [done|].
    assert (l ≠ i) by (intros ->; apply isTextAt_not_blank in Hl; congruence). lia.
  - intros i s j r (_ & Hs & _) Hb -> Hj _ _ IH l Hl Hst.
    destruct (decide (l < i)) as [Hlt|Hge].
    + eexists. split; [apply list_elem_of_here|]. simpl. lia.
    + destruct (decide (l < blankEnd document i)) as [Hin|Hout].
      * pose proof (blankEnd_blank document i l ltac:(lia) Hin) as Hbl.
        apply isTextAt_not_blank in Hl. congruence.
      * destruct (IH l Hl ltac:(lia)) as (sec & Hsec & Hrange).
        exists sec. split; [by apply list_elem_of_further|done].
  - intros i s r _ _ _ IH l Hl Hst. by apply IH.
Qed.

(** X7.  When a source document has two or more sections, every
    non-blank line lies in exactly one section block: no text is left
    out of the sections and no text is in two of them. *)
Theorem text_line_in_one_section_block document (l : nat) :
  is_Some (RUNNERS !! languageId document) ->
  2 ≤ specSectionCount document ->
  isTextAt document l = true ->
  exists b,
    b ∈ tail (findCodeBlocks document)
    ∧ (startLine b ≤ Z.of_nat l)%Z ∧ (Z.of_nat l ≤ endLine b)%Z
    ∧ forall b', b' ∈ tail (findCodeBlocks document) ->
                 (startLine b' ≤ Z.of_nat l)%Z -> (Z.of_nat l ≤ endLine b')%Z ->
                 b' = b.
Proof.
  intros Hrun Hcount Hl. rewrite (section_blocks_tail _ Hrun).
  rewrite <- findSections_length in Hcount.
  destruct (Nat.ltb_spec 1 (length (findSections document))) as [_|]; [|lia].
  destruct (sectionsFrom_cover document 0 None (loopInv_start document) l Hl)
    as (sec & Hsec & Hs & He); [lia|].
  rewrite <- findSections_from in Hsec.
  exists (sectionBlock document sec). split; [|split; [done|split; [done|]]].
  { apply list_elem_of_fmap. eauto. }
  intros b' (sec' & -> & Hsec')%list_elem_of_fmap. simpl. intros Hs' He'.
  apply list_elem_of_lookup in Hsec as [j Hj].
  apply list_elem_of_lookup in Hsec' as [k Hk].
  pose proof (findSections_ordered document) as Hord.
  destruct (Nat.lt_trichotomy j k) as [Hlt|[->|Hgt]].
  - pose proof (ordered_later _ _ _ _ _ _ Hord Hlt Hj Hk). lia.
  - rewrite Hj in Hk. by injection Hk as ->.
  - pose proof (ordered_later _ _ _ _ _ _ Hord Hgt Hk Hj). lia.
Qed.

(** X7, on a sample: line 3 of [docDoubleBlank]. *)
Lemma text_line_in_one_section_block_witness :
  exists b,
    b ∈ tail (findCodeBlocks docDoubleBlank)
    ∧ (startLine b ≤ Z.of_nat 3)%Z ∧ (Z.of_nat 3 ≤ endLine b)%Z
    ∧ forall b', b' ∈ tail (findCodeBlocks docDoubleBlank) ->
                 (startLine b' ≤ Z.of_nat 3)%Z -> (Z.of_nat 3 ≤ endLine b')%Z ->
                 b' = b.
Proof.
  apply (text_line_in_one_section_block docDoubleBlank 3).
  - eexists. vm_compute. reflexivity.
  - vm_compute. lia.
  - reflexivity.
Defined.

Lemma sectionsFrom_single document i st :
  (forall l, ~ (isBlankAt document l = true ∧ isBlankAt document (S l) = true)) ->
  loopInv document i st -> length (sectionsFrom document i st) ≤ 1.
Proof.
  intros Hno. revert i st.
  apply (sections_ind document (fun _ _ r => length r ≤ 1)); try done.
  - intros i [s|] _ _; simpl; lia.
  - intros i s j r _ Hb -> Hj _ _ _. exfalso. apply (Hno i). split; [done|].
    apply (blankEnd_blank document i); lia.
Qed.

(** X8.  A source document whose language has a runner and in which no
    two adjacent lines are both blank yields the whole-file block and
    nothing else. *)
Theorem no_adjacent_blanks_single_block document :
  is_Some (RUNNERS !! languageId document) ->
  (forall l, ~ (isBlankAt document l = true ∧ isBlankAt document (S l) = true)) ->
  findCodeBlocks document = [ wholeFileBlock document ].
Proof.
  intros Hrun Hno. rewrite (findCodeBlocks_plain _ (runner_not_markdown _ Hrun)).
  rewrite (findSourceBlocks_supported _ Hrun).
  pose proof (sectionsFrom_single document 0 None Hno (loopInv_start document)) as Hlen.
  rewrite <- findSections_from in Hlen.
  destruct (Nat.ltb_spec 1 (length (findSections document))); [lia|done].
Qed.

(** X8, on a sample: [docSingleBlank]. *)
Lemma no_adjacent_blanks_single_block_witness :
  findCodeBlocks docSingleBlank = [ wholeFileBlock docSingleBlank ].
Proof.
  apply (no_adjacent_blanks_single_block docSingleBlank).
  - eexists. vm_compute. reflexivity.
  - intros l [H1 H2]. destruct l as [|[|l]];
      [vm_compute in H1; discriminate H1|vm_compute in H2; discriminate H2|].
    unfold isBlankAt, lineAt in H1. simpl in H1. destruct l; discriminate H1.
Defined.

(** ** Code lenses *)

Lemma lensTitle_entire_file document b :
  lensTitle document b = "▶ Run Entire File"
  <-> startLine b = 0%Z
      ∧ endLine b = (Z.of_nat (lineCount document) - 1)%Z
      ∧ languageId document ≠ "markdown".
Proof.
  unfold lensTitle.
  destruct (Z.eqb_spec (startLine b) 0) as [Hs|Hs];
    destruct (Z.eqb_spec (endLine b) (Z.of_nat (lineCount document) - 1)) as [He|He];
    case_bool_decide as Hmd; cbn [andb negb].
  all: try (destruct (startLine b =? endLine b)%Z; cbn;
            (split; [discriminate|intros (? & ? & ?); done])).
  all: by split.
Qed.

(** No section covers the whole file: sections come in twos at least. *)
Lemma section_block_not_whole_file document b :
  is_Some (RUNNERS !! languageId document) ->
  b ∈ tail (findCodeBlocks document) ->
  ~ (startLine b = 0%Z ∧ endLine b = (Z.of_nat (lineCount document) - 1)%Z).
Proof.
  intros Hrun Hb. rewrite (section_blocks_tail _ Hrun) in Hb.
  destruct (Nat.ltb_spec 1 (length (findSections document))) as [Hlen|];
    [|by apply elem_of_nil in Hb].
  apply list_elem_of_fmap in Hb as (sec & -> & Hsec). simpl.
  pose proof (findSections_ordered document) as Hord.
  pose proof (findSections_good document) as Hgood. rewrite Forall_forall in Hgood.
  apply list_elem_of_lookup in Hsec as [j Hj].
  destruct j as [|j].
  - destruct (lookup_lt_is_Some_2 (findSections document) 1 Hlen) as [sec1 H1].
    pose proof (ordered_later _ _ 0 1 _ _ Hord ltac:(lia) Hj H1).
    destruct (Hgood _ (list_elem_of_lookup_2 _ _ _ H1)) as (s & e & ? & ? & ? & ? & _).
    lia.
  - destruct (lookup_lt_is_Some_2 (findSections document) 0 ltac:(lia)) as [sec0 H0].
    pose proof (ordered_later _ _ 0 (S j) _ _ Hord ltac:(lia) H0 Hj).
    pose proof (ordered_elem _ _ _ Hord (list_elem_of_lookup_2 _ _ _ H0)).
    lia.
Qed.

(** X9.  For a source document whose language has a runner, with the
    lenses shown, the first lens, on line 0, is the one titled [Run
    Entire File], and no other lens has that title: section blocks,
    also one that starts on line 0, get a [Run Block] title. *)
Theorem only_first_lens_runs_entire_file document k lens :
  is_Some (RUNNERS !! languageId document) ->
  provideCodeLenses true document !! k = Some lens ->
  (title lens = "▶ Run Entire File" <-> k = 0)
  ∧ (k = 0 -> rangeStartLine (range lens) = 0%Z).
Proof.
  intros Hrun. unfold provideCodeLenses. cbn [negb].
  intros (b & -> & Hk)%list_lookup_fmap_Some. cbn [title range rangeStartLine].
  rewrite lensTitle_entire_file.
  pose proof (runner_not_markdown _ Hrun) as Hplain.
  destruct k as [|k].
  - rewrite (findCodeBlocks_plain _ Hplain), (findSourceBlocks_supported _ Hrun) in Hk.
    injection Hk as <-. simpl. done.
  - assert (b ∈ tail (findCodeBlocks document)) as Hb.
    { destruct (findCodeBlocks document); [done|].
      simpl in *. by eapply list_elem_of_lookup_2. }
    pose proof (section_block_not_whole_file _ _ Hrun Hb).
    split; [|lia]. split; [tauto|lia].
Qed.

(** X9, on a sample: the lens of the first section of [docDoubleBlank]
    sits on line 0 as well and is titled [Run Block (line 1)]. *)
Lemma only_first_lens_runs_entire_file_witness :
  title <$> provideCodeLenses true docDoubleBlank
  = [ "▶ Run Entire File"; "▶ Run Block (line 1)"; "▶ Run Block (line 4)" ]
  ∧ (title (mkCodeLens (mkRange 0 0 0 0) "▶ Run Block (line 1)" "runCodeBlock.run"
              [ mkCodeBlock 0 0 "python" "a" 0 ])
     = "▶ Run Entire File" <-> 1 = 0)
  ∧ (1 = 0 ->
     rangeStartLine
       (range (mkCodeLens (mkRange 0 0 0 0) "▶ Run Block (line 1)" "runCodeBlock.run"
                 [ mkCodeBlock 0 0 "python" "a" 0 ])) = 0%Z).
Proof.
  split; [by vm_compute|].
  apply (only_first_lens_runs_entire_file docDoubleBlank 1).
  - eexists. vm_compute. reflexivity.
  - vm_compute. reflexivity.
Defined.

(** X10.  In a markdown document the lenses are the detected blocks in
    order: the lens number [k] carries block number [k] as its argument
    and the command [runCodeBlock.run], and sits at column 0 of that
    block's anchor line, the opening fence line right above the block's
    content.  No lens is titled [Run Entire File], and the lenses are on
    strictly increasing lines: no two lenses share a line. *)
Theorem markdown_lenses_on_fence_lines showCodeLens document :
  languageId document = "markdown" ->
  (forall k lens,
     provideCodeLenses showCodeLens document !! k = Some lens ->
     exists b i ln,
       findCodeBlocks document !! k = Some b
       ∧ arguments lens = [b]
       ∧ lensCommand lens = "runCodeBlock.run"
       ∧ range lens = mkRange (Z.of_nat i) 0 (Z.of_nat i) 0
       ∧ lensLine b = Z.of_nat i ∧ startLine b = Z.of_nat (S i)
       ∧ lineAt document i = Some ln ∧ testFence (text ln) = true
       ∧ title lens ≠ "▶ Run Entire File")
  ∧ (forall j k l1 l2, j < k ->
       provideCodeLenses showCodeLens document !! j = Some l1 ->
       provideCodeLenses showCodeLens document !! k = Some l2 ->
       (rangeStartLine (range l1) < rangeStartLine (range l2))%Z).
Proof.
  intros Hmd. unfold provideCodeLenses.
  destruct showCodeLens; cbn [negb]; [|split; [by intros ? ?|done]].
  split.
  - intros k lens (b & -> & Hk)%list_lookup_fmap_Some.
    cbn [title range arguments lensCommand].
    pose proof (list_elem_of_lookup_2 _ _ _ Hk) as Hb.
    rewrite (findCodeBlocks_markdown _ Hmd) in Hb.
    apply findMarkdownBlocks_origin in Hb as (i & ln & _ & Hln & Ht & Hb).
    apply fencePushed_inv in Hb as (Hb & _ & _).
    exists b, i, ln. rewrite Hb at 4 5 6 7. cbn [lensLine startLine].
    repeat split; try done; try lia.
    rewrite lensTitle_entire_file. tauto.
  - intros j k l1 l2 Hjk (b1 & -> & H1)%list_lookup_fmap_Some
      (b2 & -> & H2)%list_lookup_fmap_Some. cbn [range rangeStartLine].
    rewrite (findCodeBlocks_markdown _ Hmd), findMarkdownBlocks_from in H1, H2.
    pose proof (markdownFrom_chained document 0) as Hch.
    pose proof (chained_later _ _ _ _ _ _ _ Hch Hjk H1 H2).
    pose proof (chained_elem _ _ _ _ Hch (list_elem_of_lookup_2 _ _ _ H1)). lia.
Qed.

(** X10, on a sample: the two lenses of [docTwoFences]. *)
Lemma markdown_lenses_on_fence_lines_witness :
  provideCodeLenses true docTwoFences
  = [ mkCodeLens (mkRange 0 0 0 0) "▶ Run Block (line 2)" "runCodeBlock.run"
        [ mkCodeBlock 1 1 "python" "print(1)" 0 ];
      mkCodeLens (mkRange 4 0 4 0) "▶ Run Block (line 6)" "runCodeBlock.run"
        [ mkCodeBlock 5 5 "shellscript" "ls" 4 ] ]
  ∧ (forall k lens,
       provideCodeLenses true docTwoFences !! k = Some lens ->
       exists b i ln,
         findCodeBlocks docTwoFences !! k = Some b
         ∧ arguments lens = [b]
         ∧ lensCommand lens = "runCodeBlock.run"
         ∧ range lens = mkRange (Z.of_nat i) 0 (Z.of_nat i) 0
         ∧ lensLine b = Z.of_nat i ∧ startLine b = Z.of_nat (S i)
         ∧ lineAt docTwoFences i = Some ln ∧ testFence (text ln) = true
         ∧ title lens ≠ "▶ Run Entire File")
  ∧ (forall j k l1 l2, j < k ->
       provideCodeLenses true docTwoFences !! j = Some l1 ->
       provideCodeLenses true docTwoFences !! k = Some l2 ->
       (rangeStartLine (range l1) < rangeStartLine (range l2))%Z).
Proof.
  split; [by vm_compute|].
  apply (markdown_lenses_on_fence_lines true docTwoFences). reflexivity.
Defined.

(** ** The block at the cursor *)

Lemma blockAtCursor_Some blocks cursorLine b :
  blockAtCursor blocks cursorLine = Some b ->
  b ∈ blocks ∧ (lensLine b ≤ cursorLine)%Z ∧ (cursorLine ≤ endLine b)%Z.
Proof.
  unfold blockAtCursor. intros [Hin Hp]%find_some.
  apply andb_true_iff in Hp as [?%Z.leb_le ?%Z.leb_le].
  by rewrite list_elem_of_In.
Qed.

Lemma blockAtCursor_None blocks cursorLine b :
  blockAtCursor blocks cursorLine = None -> b ∈ blocks ->
  ~ ((lensLine b ≤ cursorLine)%Z ∧ (cursorLine ≤ endLine b)%Z).
Proof.
  unfold blockAtCursor. intros Hnone Hb%list_elem_of_In [H1 H2].
  pose proof (find_none _ _ Hnone _ Hb) as Hp. simpl in Hp.
  apply andb_false_iff in Hp as [?%Z.leb_gt|?%Z.leb_gt]; lia.
Qed.

(** Two blocks of a markdown document are the same block or lie apart,
    with a line between them. *)
Lemma markdown_blocks_apart document b1 b2 :
  b1 ∈ findMarkdownBlocks document -> b2 ∈ findMarkdownBlocks document ->
  b1 = b2 ∨ (endLine b1 + 2 ≤ lensLine b2)%Z ∨ (endLine b2 + 2 ≤ lensLine b1)%Z.
Proof.
  rewrite findMarkdownBlocks_from.
  pose proof (markdownFrom_chained document 0) as Hch.
  intros [j Hj]%list_elem_of_lookup [k Hk]%list_elem_of_lookup.
  destruct (Nat.lt_trichotomy j k) as [Hlt|[->|Hgt]].
  - right. left. apply (chained_later _ _ _ _ _ _ _ Hch Hlt Hj Hk).
  - left. rewrite Hj in Hk. by injection Hk.
  - right. right. apply (chained_later _ _ _ _ _ _ _ Hch Hgt Hk Hj).
Qed.

(** X11.  In a source document whose language has a runner, the command
    that runs the block at the cursor always runs the whole file,
    wherever the cursor is in the document: a section block is never the
    one it picks. *)
Theorem cursor_in_source_runs_whole_file document cursorLine :
  is_Some (RUNNERS !! languageId document) ->
  (0 ≤ cursorLine)%Z -> (cursorLine ≤ Z.of_nat (lineCount document) - 1)%Z ->
  runAtCursor (Some (document, cursorLine)) = RunBlock (wholeFileBlock document).
Proof.
  intros Hrun H0 Hn. unfold runAtCursor, blockAtCursor.
  rewrite (findCodeBlocks_plain _ (runner_not_markdown _ Hrun)).
  rewrite (findSourceBlocks_supported _ Hrun). cbn [List.find wholeFileBlock lensLine endLine].
  replace (0 <=? cursorLine)%Z with true by (symmetry; by apply Z.leb_le).
  replace (cursorLine <=? Z.of_nat (lineCount document) - 1)%Z with true
    by (symmetry; by apply Z.leb_le).
  done.
Qed.

(** X11, on a sample: the cursor on the second section of
    [docDoubleBlank]. *)
Lemma cursor_in_source_runs_whole_file_witness :
  runAtCursor (Some (docDoubleBlank, 3%Z)) = RunBlock (wholeFileBlock docDoubleBlank).
Proof.
  apply (cursor_in_source_runs_whole_file docDoubleBlank 3).
  - eexists. vm_compute. reflexivity.
  - lia.
  - vm_compute. discriminate.
Defined.

(** X12.  In a markdown document, with the cursor on the opening fence
    line of a detected block or on one of its content lines, the command
    runs that block. *)
Theorem cursor_in_fence_runs_its_block document b cursorLine :
  languageId document = "markdown" ->
  b ∈ findCodeBlocks document ->
  (lensLine b ≤ cursorLine)%Z -> (cursorLine ≤ endLine b)%Z ->
  runAtCursor (Some (document, cursorLine)) = RunBlock b.
Proof.
  intros Hmd Hb H1 H2. unfold runAtCursor.
  destruct (blockAtCursor (findCodeBlocks document) cursorLine) as [b'|] eqn:Hfind.
  - apply blockAtCursor_Some in Hfind as (Hb' & H1' & H2').
    rewrite (findCodeBlocks_markdown _ Hmd) in Hb, Hb'.
    destruct (markdown_blocks_apart _ _ _ Hb Hb') as [->|[?|?]]; [done|lia..].
  - by destruct (blockAtCursor_None _ _ _ Hfind Hb).
Qed.

(** X12, on a sample: the cursor on the fence line of the second block
    of [docTwoFences]. *)
Lemma cursor_in_fence_runs_its_block_witness :
  runAtCursor (Some (docTwoFences, 4%Z))
  = RunBlock (mkCodeBlock 5 5 "shellscript" "ls" 4).
Proof.
  apply (cursor_in_fence_runs_its_block docTwoFences).
  - reflexivity.
  - vm_compute. apply list_elem_of_further, list_elem_of_here.
  - vm_compute. discriminate.
  - vm_compute. discriminate.
Defined.

(** X13.  In a markdown document, with the cursor on the line right
    after a detected block (its closing fence), the command finds no
    block and runs nothing. *)
Theorem cursor_on_closing_fence_runs_nothing document b :
  languageId document = "markdown" ->
  b ∈ findCodeBlocks document ->
  runAtCursor (Some (document, (endLine b + 1)%Z)) = InfoNoBlockAtCursor.
Proof.
  intros Hmd Hb. unfold runAtCursor.
  destruct (blockAtCursor (findCodeBlocks document) (endLine b + 1)) as [b'|] eqn:Hfind;
    [|done].
  apply blockAtCursor_Some in Hfind as (Hb' & H1' & H2').
  rewrite (findCodeBlocks_markdown _ Hmd) in Hb, Hb'.
  pose proof Hb as Hshape. rewrite findMarkdownBlocks_from in Hshape.
  apply (chained_elem _ _ _ _ (markdownFrom_chained document 0)) in Hshape.
  destruct (markdown_blocks_apart _ _ _ Hb Hb') as [<-|[?|?]]; lia.
Qed.

(** X13, on a sample: the cursor on the closing fence of [docFenced]. *)
Lemma cursor_on_closing_fence_runs_nothing_witness :
  runAtCursor (Some (docFenced, 3%Z)) = InfoNoBlockAtCursor.
Proof.
  apply (cursor_on_closing_fence_runs_nothing docFenced
           (mkCodeBlock 1 2 "python" ("print(1)" +:+ newline +:+ "print(2)") 0)).
  - reflexivity.
  - vm_compute. apply list_elem_of_here.
Defined.

(** ** The terminal *)

Lemma applyEvent_openHandles st e :
  openHandles st -> possibleEvent st e -> openHandles (applyEvent st e).
Proof.
  intros [Hshared Hactive] He. destruct e as [reuse fresh|terminal|active].
  - unfold applyEvent, getTerminal.
    destruct (if reuse then activeTerminal (window st) else None) as [a|] eqn:Ha;
      [by split|].
    assert (openHandles (mkState (mkWindow (activeTerminal (window st))
                                    (terminals (window st) ++ [fresh]))
                           (Some fresh))) as Hcreated.
    { split; simpl.
      - intros t [= <-]. apply elem_of_app. right. apply list_elem_of_here.
      - intros t Ht. apply elem_of_app. left. by apply Hactive. }
    destruct (if reuse then sharedTerminal st else None) as [s|] eqn:Hs; [|done].
    case_bool_decide; [by split|done].
  - split; simpl.
    + unfold onDidCloseTerminal. case_bool_decide as Hsame; [done|].
      intros t Ht. apply list_elem_of_In, filter_In. split.
      * apply list_elem_of_In. by apply Hshared.
      * apply negb_true_iff, Nat.eqb_neq. congruence.
    + case_bool_decide as Hsame; [done|].
      intros t Ht. apply list_elem_of_In, filter_In. split.
      * apply list_elem_of_In. by apply Hactive.
      * apply negb_true_iff, Nat.eqb_neq. congruence.
  - split; simpl; [done|]. apply He.
Qed.

(** X14.  Through any sequence of runs, closed terminals and changes of
    the active terminal, [sharedTerminal] never refers to a closed
    terminal: the close handler clears it when its terminal is closed,
    and [getTerminal] sets it only to a terminal it has just created. *)
Theorem shared_terminal_stays_open st es :
  openHandles st -> possibleEvents st es -> openHandles (applyEvents st es).
Proof.
  revert st. induction es as [|e es IH]; intros st Hst; simpl; [done|].
  intros [He Hes]. apply IH; [|done]. by apply applyEvent_openHandles.
Qed.

(** X14, on a sample: a run creates terminal 7, the terminal is closed,
    and the handle is cleared. *)
Lemma shared_terminal_stays_open_witness :
  applyEvents initialState [Run true 7; Close 7] = mkState (mkWindow None []) None
  ∧ openHandles (applyEvents initialState [Run true 7; Close 7]).
Proof.
  split; [by vm_compute|].
  apply (shared_terminal_stays_open initialState [Run true 7; Close 7]).
  - split; intros t Ht; discriminate Ht.
  - simpl. repeat split. apply not_elem_of_nil.
Defined.

(** X15.  While the handles refer to open terminals, [getTerminal]
    creates a terminal exactly when reuse is off or there is neither an
    active nor a shared terminal; then it returns the new terminal and
    makes it the shared one.  Otherwise it returns an open terminal, the
    active one when there is one, and leaves [sharedTerminal] as it
    is. *)
Theorem getTerminal_reuse reuse st fresh :
  openHandles st ->
  (created (getTerminal reuse (window st) (sharedTerminal st) fresh) = true
   <-> reuse = false
       ∨ (activeTerminal (window st) = None ∧ sharedTerminal st = None))
  ∧ (created (getTerminal reuse (window st) (sharedTerminal st) fresh) = true ->
     chosen (getTerminal reuse (window st) (sharedTerminal st) fresh) = fresh
     ∧ sharedAfter (getTerminal reuse (window st) (sharedTerminal st) fresh)
       = Some fresh)
  ∧ (created (getTerminal reuse (window st) (sharedTerminal st) fresh) = false ->
     chosen (getTerminal reuse (window st) (sharedTerminal st) fresh)
     ∈ terminals (window st)
     ∧ sharedAfter (getTerminal reuse (window st) (sharedTerminal st) fresh)
       = sharedTerminal st
     ∧ forall active, activeTerminal (window st) = Some active ->
         chosen (getTerminal reuse (window st) (sharedTerminal st) fresh) = active).
Proof.
  intros [Hshared Hactive]. unfold getTerminal.
  destruct reuse; cbn.
  - destruct (activeTerminal (window st)) as [a|] eqn:Ha; cbn.
    + split; [split; [done|intros [?|[? _]]; done]|].
      split; [done|]. intros _. split; [by apply Hactive|].
      split; [done|]. by intros ? [= <-].
    + destruct (sharedTerminal st) as [s|] eqn:Hs; cbn.
      * rewrite bool_decide_eq_true_2 by (by apply Hshared). cbn.
        split; [split; [done|intros [?|[_ ?]]; done]|].
        split; [done|]. intros _. split; [by apply Hshared|done].
      * split; [split; [by right|done]|]. split; done.
  - split; [split; [by left|done]|]. split; done.
Qed.

(** X15, on a sample: with terminal 7 open and shared, and no active
    terminal, the shared terminal is reused. *)
Lemma getTerminal_reuse_witness :
  getTerminal true (mkWindow None [7]) (Some 7) 8 = mkChoice 7 (Some 7) false
  ∧ (created (getTerminal true (mkWindow None [7]) (Some 7) 8) = false ->
     chosen (getTerminal true (mkWindow None [7]) (Some 7) 8) ∈ [7]
     ∧ sharedAfter (getTerminal true (mkWindow None [7]) (Some 7) 8) = Some 7
     ∧ forall active, None = Some active ->
         chosen (getTerminal true (mkWindow None [7]) (Some 7) 8) = active).
Proof.
  split; [by vm_compute|].
  apply (getTerminal_reuse true (mkState (mkWindow None [7]) (Some 7)) 8).
  split; simpl.
  - intros t [= <-]. apply list_elem_of_here.
  - intros t Ht. discriminate Ht.
Defined.

(** ** Activation *)

(** X16.  [activate] registers the lens provider once for each key of
    the runner table and once for markdown.  A source document in a
    registered language gets, when the lenses are shown, the lens [Run
    Entire File] of its whole-file block first.  A source document gets
    a lens exactly when its language is registered or is the name of a
    property that [RUNNERS] inherits from [Object.prototype]; for no
    such name is the provider registered. *)
Theorem lenses_for_registered_languages document :
  languageId document ≠ "markdown" ->
  NoDup registeredLanguages
  ∧ (forall lang, lang ∈ registeredLanguages
                  <-> lang = "markdown" ∨ is_Some (RUNNERS !! lang))
  ∧ (forall lang, lang ∈ objectPrototypeNames -> lang ∉ registeredLanguages)
  ∧ (languageId document ∈ registeredLanguages ->
     exists rest,
       provideCodeLenses true document
       = mkCodeLens (mkRange 0 0 0 0) "▶ Run Entire File" "runCodeBlock.run"
           [ wholeFileBlock document ]
         :: rest)
  ∧ (provideCodeLenses true document ≠ []
     <-> languageId document ∈ registeredLanguages
         ∨ languageId document ∈ objectPrototypeNames).
Proof.
  intros Hplain.
  assert (forall lang, lang ∈ registeredLanguages
                       <-> lang = "markdown" ∨ is_Some (RUNNERS !! lang)) as Hreg.
  { intros lang. unfold registeredLanguages.
    rewrite elem_of_app, list_elem_of_singleton, runnerKeys_runner. tauto. }
  split; [apply (bool_decide_unpack _); by vm_compute|].
  split; [done|]. split; [|split].
  - intros lang Hproto [->|Hrun]%Hreg.
    + revert Hproto. apply (bool_decide_unpack _). by vm_compute.
    + by apply runner_not_inherited in Hrun.
  - intros [?|Hrun]%Hreg; [done|]. unfold provideCodeLenses. cbn [negb].
    rewrite (findCodeBlocks_plain _ Hplain), (findSourceBlocks_supported _ Hrun).
    rewrite fmap_cons. eexists. f_equal.
    assert (lensTitle document (wholeFileBlock document) = "▶ Run Entire File")
      as ->; [|done].
    apply lensTitle_entire_file. done.
  - rewrite Hreg. unfold provideCodeLenses. cbn [negb].
    rewrite (findCodeBlocks_plain _ Hplain). unfold findSourceBlocks.
    destruct (hasRunner (languageId document)) eqn:Hrun; cbn [negb].
    + apply hasRunner_string in Hrun. split; [tauto|done].
    + split; [done|]. intros Hcases.
      assert (hasRunner (languageId document) = true) as Htrue.
      { apply hasRunner_string. destruct Hcases as [[?|?]|?]; [done|by left|by right]. }
      congruence.
Qed.

(** X16, on a sample: a python document. *)
Lemma lenses_for_registered_languages_witness :
  title <$> provideCodeLenses true docSingleBlank = [ "▶ Run Entire File" ]
  ∧ NoDup registeredLanguages
  ∧ (forall lang, lang ∈ registeredLanguages
                  <-> lang = "markdown" ∨ is_Some (RUNNERS !! lang))
  ∧ (forall lang, lang ∈ objectPrototypeNames -> lang ∉ registeredLanguages)
  ∧ (languageId docSingleBlank ∈ registeredLanguages ->
     exists rest,
       provideCodeLenses true docSingleBlank
       = mkCodeLens (mkRange 0 0 0 0) "▶ Run Entire File" "runCodeBlock.run"
           [ wholeFileBlock docSingleBlank ]
         :: rest)
  ∧ (provideCodeLenses true docSingleBlank ≠ []
     <-> languageId docSingleBlank ∈ registeredLanguages
         ∨ languageId docSingleBlank ∈ objectPrototypeNames).
Proof.
  split; [by vm_compute|].
  apply (lenses_for_registered_languages docSingleBlank).
  vm_compute. discriminate.
Defined.
